(** * A velocity-Verlet molecular-dynamics program, embedded and verified

    The program under study is the Python/NumPy script [initialcode.ipynb]:
    [run_md] drives [velocity_verlet_update_positions], [compute_forces]
    (which is [lj_force]) and [velocity_verlet_update_velocities], and hands
    frames to [write_trajectory_frame].

    Numbers.  The dynamics are stated over the real numbers [R]: a NumPy
    float is read as the real it denotes and rounding is left out, so the
    statements below are the exact-arithmetic content of the code.  The
    float operations that have no real counterpart, the divisions by a zero
    distance or a zero mass (NumPy yields [nan] or [inf] and goes on, Python
    raises on scalars), are made explicit: the functions that divide return
    [option], and [None] stands for the indeterminate result.
    [np.copysign(1, d)] is [-1] for negative [d] and [+1] otherwise (the
    difference of two equal floats is [+0.0]).

    Arrays.  An [(N, 3)] array is a list of rows, a row is a [vec3]; in-place
    updates of a row ([f[i] -= lj_f]) are stdpp's [alter] on lists. *)

From Stdlib Require Import Reals Lra Lia ZArith QArith Qabs String Ascii DecimalString.
From stdpp Require Import base option list.

Open Scope R_scope.

(** ** Rows and arrays *)

Record vec3 (A : Type) : Type := V3 { c0 : A; c1 : A; c2 : A }.
Arguments V3 {A} _ _ _.
Arguments c0 {A} _.
Arguments c1 {A} _.
Arguments c2 {A} _.

Abbreviation vec := (vec3 R).
Abbreviation array := (list (vec3 R)).

Definition vmap {A B : Type} (g : A -> B) (a : vec3 A) : vec3 B :=
  V3 (g (c0 a)) (g (c1 a)) (g (c2 a)).

Definition vzip {A B C : Type} (g : A -> B -> C) (a : vec3 A) (b : vec3 B) : vec3 C :=
  V3 (g (c0 a) (c0 b)) (g (c1 a) (c1 b)) (g (c2 a) (c2 b)).

Definition vzero : vec := V3 0 0 0.
Definition vadd : vec -> vec -> vec := vzip Rplus.
Definition vsub : vec -> vec -> vec := vzip Rminus.
(** [s * a] for a scalar [s] and a row [a] *)
Definition vscale (s : R) : vec -> vec := vmap (Rmult s).
(** [a / s] for a row [a] and a scalar [s] *)
Definition vdiv (a : vec) (s : R) : vec := vmap (fun c => c / s) a.
(** [np.dot(a, b)] on two rows *)
Definition vdot (a b : vec) : R := c0 a * c0 b + c1 a * c1 b + c2 a * c2 b.

(** Element-wise operations on whole arrays of one shape. *)
Definition azip (g : vec -> vec -> vec) (a b : array) : array := zip_with g a b.
Definition ascale (s : R) (a : array) : array := vscale s <$> a.
(** [np.zeros(x.shape)] *)
Definition zeros (n : nat) : array := replicate n vzero.
(** the sum of the rows of an array *)
Definition asum (a : array) : vec := foldr vadd vzero a.

(** ** A loop with early failure

    [for_each ks body s] runs [body k] for each [k] of [ks] in turn,
    threading the state and stopping at the first failure. *)
Fixpoint for_each {S : Type} (ks : list nat) (body : nat -> S -> option S) (s : S)
  : option S :=
  match ks with
  | [] => Some s
  | k :: ks' => s' ← body k s; for_each ks' body s'
  end.

(** Python's [range(a, b)] *)
Definition range (a b : nat) : list nat := seq a (b - a).

(** ** lj_force *)

Module LJ.

Definition sigma : R := 1.
Definition sigma6 : R := sigma ^ 6.
Definition sigma7 : R := sigma6 * sigma.
Definition eps : R := 1.

(** [np.copysign(1, d)] *)
Definition copysign1 (d : R) : R := if Rlt_dec d 0 then -1 else 1.

(** The body of the loop "check PBC" on one component of [dx]. *)
Definition pbc (L : R) (d : R) : R :=
  if Rlt_dec (Rabs d) 0.5 then d - 0.5 * L * copysign1 d else d.

(** From "compute squared distance" to [lj_f], on the corrected [dx]. *)
Definition lj_f (dx : vec) : option vec :=
  let dist2 := vdot dx dx in
  let dist := sqrt dist2 in
  if Req_dec_T dist 0 then None
  else
    let dx := vdiv dx dist in
    let dist6 := / (dist2 ^ 3) in
    let dist7 := dist6 / dist in
    Some (vscale (24 * eps * sigma7 * dist7 * (2 * sigma6 * dist6 - 1)) dx).

(** The separation vector of rows [xi] and [xj] after the PBC check. *)
Definition separation (L : R) (xi xj : vec) : vec :=
  vmap (pbc L) (vsub xi xj).

(** One iteration of the inner loop: the pair [(i, j)]. *)
Definition pair (x : array) (L : R) (i j : nat) (f : array) : option array :=
  xi ← x !! i;
  xj ← x !! j;
  g ← lj_f (separation L xi xj);
  Some (alter (fun fj => vadd fj g) j (alter (fun fi => vsub fi g) i f)).

Definition lj_force (x : array) (L : R) : option array :=
  let N := length x in
  for_each (range 0 (N - 1))
    (fun i => for_each (range (i + 1) N) (pair x L i))
    (zeros N).

End LJ.

Definition compute_forces (x : array) (L : R) : option array := LJ.lj_force x L.

(** ** The integrator *)

(** The wrap of one coordinate into the central box. *)
Definition wrap (L : R) (c : R) : R :=
  if Rlt_dec c 0 then c + L
  else if Rgt_dec c L then c - L
  else c.

(** The array [v*dt + 0.5*dt*dt*f/m] that is added to the positions. *)
Definition displacement (v f : array) (m dt : R) : array :=
  azip vadd (vmap (fun c => c * dt) <$> v)
            (vmap (fun c => 0.5 * dt * dt * c / m) <$> f).

(** [x += v*dt + 0.5*dt*dt*f/m], then the wrap of every coordinate.
    The division by the mass has no value for [m = 0]. *)
Definition velocity_verlet_update_positions
    (x v f : array) (m dt L : R) : option array :=
  if Req_dec_T m 0 then None
  else
    let x := azip vadd x (displacement v f m dt) in
    Some (vmap (wrap L) <$> x).

(** [v += 0.5*dt/m*(f0+f1)] *)
Definition velocity_verlet_update_velocities
    (v f0 f1 : array) (m dt : R) : option array :=
  if Req_dec_T m 0 then None
  else Some (azip vadd v (ascale (0.5 * dt / m) (azip vadd f0 f1))).

(** ** run_md

    The state of the loop: positions, velocities, the saved forces, and the
    calls made so far to [write_trajectory_frame] (step and positions). *)
Record md_state : Type := MdState {
  st_x : array;
  st_v : array;
  st_f0 : array;
  st_frames : list (nat * array)
}.

(** The body of [for step in range(n_steps)].  [step % dump] raises for
    [dump = 0]. *)
Definition md_step (m dt L : R) (dump : Z) (step : nat) (s : md_state)
  : option md_state :=
  x ← velocity_verlet_update_positions (st_x s) (st_v s) (st_f0 s) m dt L;
  f1 ← compute_forces x L;
  v ← velocity_verlet_update_velocities (st_v s) (st_f0 s) f1 m dt;
  if (dump =? 0)%Z then None
  else
    let frames :=
      if (Z.of_nat step mod dump =? 0)%Z then st_frames s ++ [(step, x)]
      else st_frames s in
    Some (MdState x v f1 frames).

(** [run_md] from given initial positions and velocities (the program draws
    them at random). *)
Definition run_md_from (x v : array) (L : R) (n_steps : nat) (m : R) (dump : Z)
    (dt : R) : option md_state :=
  f0 ← compute_forces x L;
  for_each (range 0 n_steps) (md_step m dt L dump) (MdState x v f0 []).

(** [initialize_positions]: [np.random.rand(N,3)*L], with the draw [u] of
    [np.random.rand(N,3)] (an [(N, 3)] array of numbers in [[0, 1)]) given. *)
Definition initialize_positions (u : array) (L : R) : array :=
  vmap (fun c => c * L) <$> u.

(** [initialize_velocities]: [np.random.normal(size=(N,3))*np.sqrt(T/m)], with
    the draw [g] of [np.random.normal] given.  [T/m] has no value for
    [m = 0], and the square root none for a negative quotient. *)
Definition initialize_velocities (g : array) (m T : R) : option array :=
  if Req_dec_T m 0 then None
  else if Rlt_dec (T / m) 0 then None
  else Some (vmap (fun c => c * sqrt (T / m)) <$> g).

(** [run_md], with the two random draws given. *)
Definition run_md (u g : array) (L : R) (n_steps : nat) (m T : R) (dump : Z)
    (dt : R) : option md_state :=
  let x := initialize_positions u L in
  v ← initialize_velocities g m T;
  run_md_from x v L n_steps m dump dt.

(** Total momentum, the sum of [m * v[i]] over the particles. *)
Definition momentum (m : R) (v : array) : vec := asum (ascale m v).

(** ** write_trajectory_frame

    The text written is exact, so here a float is the rational it denotes. *)

Module Traj.
Open Scope string_scope.

Definition nl : string := String (ascii_of_nat 10) EmptyString.

Fixpoint fill (n : nat) (c : ascii) : string :=
  match n with
  | O => EmptyString
  | S n' => String c (fill n' c)
  end.

(** right-justify in a field of [w] characters *)
Definition rjust (w : nat) (c : ascii) (s : string) : string :=
  fill (w - String.length s) c ++ s.

Definition digits (n : Z) : string :=
  DecimalString.NilZero.string_of_int (Z.to_int n).

(** the conversion [%wd] *)
Definition fmt_d (w : nat) (n : Z) : string := rjust w " " (digits n).

(** The non-negative rational [q] rounded to an integer, ties to even. *)
Definition round_half_even (q : Q) : Z :=
  let n := Qnum q in
  let d := Zpos (Qden q) in
  let fl := (n / d)%Z in
  match (2 * (n mod d) ?= d)%Z with
  | Lt => fl
  | Gt => (fl + 1)%Z
  | Eq => if Z.even fl then fl else (fl + 1)%Z
  end.

(** the conversion [%w.pf], for [p > 0] *)
Definition fmt_f (w p : nat) (q : Q) : string :=
  let unit := (10 ^ Z.of_nat p)%Z in
  let scaled := round_half_even (Qabs q * inject_Z unit) in
  let body :=
    digits (scaled / unit) ++ "." ++ rjust p "0" (digits (scaled mod unit)) in
  rjust w " " (if (Qnum q <? 0)%Z then "-" ++ body else body).

(** [file] is what the file holds so far; the result is what it holds
    after the writes. *)
Definition write_trajectory_frame (x : list (vec3 Q)) (file : string) (step : Z)
  : string :=
  let N := Z.of_nat (List.length x) in
  let file := file ++ fmt_d 10 N ++ nl in
  let file := file ++ fmt_d 10 step ++ nl in
  foldl (fun file xi =>
           file ++ "C   " ++ fmt_f 10 5 (c0 xi) ++ " " ++ fmt_f 10 5 (c1 xi)
                ++ " " ++ fmt_f 10 5 (c2 xi) ++ nl)
        file x.

(** the lines of a text, each ended by a newline *)
Fixpoint lines_aux (cur : string) (s : string) : list string :=
  match s with
  | EmptyString => if String.eqb cur "" then [] else [cur]
  | String c s' =>
      if Ascii.eqb c (ascii_of_nat 10) then cur :: lines_aux "" s'
      else lines_aux (cur ++ String c "") s'
  end.
Definition lines (s : string) : list string := lines_aux "" s.

End Traj.

(** ** Notions the properties are stated with *)

(** The component [a[l]] of a row, for [l] in [range(3)]. *)
Definition coord (l : nat) (a : vec) : R :=
  match l with
  | O => c0 a
  | S O => c1 a
  | _ => c2 a
  end.

(** The Euclidean length of a row. *)
Definition vnorm (a : vec) : R := sqrt (vdot a a).

(** The distance [dist] that [lj_force] computes for rows [xi] and [xj]. *)
Definition pair_distance (L : R) (xi xj : vec) : R :=
  vnorm (LJ.separation L xi xj).

(** A property of every coordinate of every row of an array. *)
Definition all_coords (P : R -> Prop) (x : array) : Prop :=
  Forall (fun r => P (c0 r) /\ P (c1 r) /\ P (c2 r)) x.

(** The closed box [0, L] and the half-open box [0, L). *)
Definition in_box (L : R) : array -> Prop := all_coords (fun c => 0 <= c <= L).
Definition in_half_open_box (L : R) : array -> Prop :=
  all_coords (fun c => 0 <= c < L).

(** The positions after [x += ...] and before the wrap. *)
Definition unwrapped (x v f : array) (m dt : R) : array :=
  azip vadd x (displacement v f m dt).

(** The minimum-image correction in the words of the specification:
    threshold [L/2], shift by one box length against the sign. *)
Definition min_image_spec (L : R) (d : R) : R :=
  if Rgt_dec (Rabs d) (L / 2) then d - L * LJ.copysign1 d else d.

(** The force magnitude in the words of the specification. *)
Definition spec_magnitude (r : R) : R :=
  24 * LJ.eps * LJ.sigma ^ 6 / r ^ 6 * (2 * LJ.sigma ^ 6 / r ^ 6 - 1).

(** The force magnitude that [lj_force] computes at distance [r]. *)
Definition lj_magnitude (r : R) : R :=
  24 * LJ.eps * LJ.sigma ^ 7 / r ^ 7 * (2 * LJ.sigma ^ 6 / r ^ 6 - 1).

(** The separation at the Lennard-Jones minimum, [2^(1/6) * sigma]. *)
Definition r_min : R := Rpower 2 (/ 6) * LJ.sigma.

(** The number of newline characters of a text. *)
Fixpoint count_nl (s : string) : nat :=
  match s with
  | EmptyString => 0
  | String c s' => (if Ascii.eqb c (ascii_of_nat 10) then 1 else 0) + count_nl s'
  end.

(** The saved forces are those of the current positions. *)
Definition forces_current (L : R) (s : md_state) : Prop :=
  compute_forces (st_x s) L = Some (st_f0 s).

(** The invariant of both loops of [lj_force]. *)
Definition lj_inv (N : nat) (f : array) : Prop := length f = N /\ asum f = vzero.

(** The invariant of the loop of [run_md]: shapes agree and the saved forces are those of
    the current positions. *)
Definition md_inv (N : nat) (L : R) (s : md_state) : Prop :=
  length (st_x s) = N /\ length (st_v s) = N /\ forces_current L s.

(** * Properties *)

(** ** Rows *)

Lemma vec_eq (a b : vec) :
  c0 a = c0 b -> c1 a = c1 b -> c2 a = c2 b -> a = b.
Proof. destruct a, b; simpl; intros; subst; reflexivity. Qed.

Ltac vec_unfold :=
  unfold vadd, vsub, vscale, vdiv, vdot, vzero, vzip, vmap in *; simpl in *.

Ltac vec_ring := intros; apply vec_eq; vec_unfold; ring.

Lemma vadd_comm (a b : vec) : vadd a b = vadd b a.
Proof. vec_ring. Qed.

Lemma vadd_assoc (a b c : vec) : vadd a (vadd b c) = vadd (vadd a b) c.
Proof. vec_ring. Qed.

Lemma vadd_zero_l (a : vec) : vadd vzero a = a.
Proof. vec_ring. Qed.

Lemma vadd_zero_r (a : vec) : vadd a vzero = a.
Proof. vec_ring. Qed.

Lemma vscale_zero (s : R) : vscale s vzero = vzero.
Proof. vec_ring. Qed.

Lemma vscale_vadd (s : R) (a b : vec) :
  vscale s (vadd a b) = vadd (vscale s a) (vscale s b).
Proof. vec_ring. Qed.

(** ** Sums of arrays *)

Lemma asum_cons (a : vec) (l : array) : asum (a :: l) = vadd a (asum l).
Proof. reflexivity. Qed.

Lemma asum_zeros (n : nat) : asum (zeros n) = vzero.
Proof.
  induction n as [|n IH]; [reflexivity|].
  unfold zeros, asum in *. simpl. rewrite IH. apply vadd_zero_l.
Qed.

Lemma asum_ascale (s : R) (a : array) : asum (ascale s a) = vscale s (asum a).
Proof.
  unfold asum, ascale.
  induction a as [|r a IH]; csimpl.
  - symmetry. apply vscale_zero.
  - rewrite IH. symmetry. apply vscale_vadd.
Qed.

Lemma asum_azip_vadd (a b : array) :
  length a = length b ->
  asum (azip vadd a b) = vadd (asum a) (asum b).
Proof.
  unfold asum, azip.
  revert b. induction a as [|r a IH]; intros [|q b] Hlen; simpl in Hlen; try discriminate.
  - simpl. symmetry. apply vadd_zero_l.
  - simpl. rewrite IH by congruence. vec_ring.
Qed.

(** The row update [f[i] = g(f[i])] moves the sum by [g(f[i]) - f[i]]. *)
Lemma asum_alter (g : vec -> vec) (i : nat) (f : array) (fi : vec) :
  f !! i = Some fi ->
  asum (alter g i f) = vadd (asum f) (vsub (g fi) fi).
Proof.
  unfold asum.
  revert i. induction f as [|r f IH]; intros [|i] Hi; simpl in Hi; try discriminate.
  - injection Hi as ->. csimpl. vec_ring.
  - csimpl. rewrite (IH i Hi). apply vadd_assoc.
Qed.

(** ** Loops *)

Section ForEach.
Context {S : Type}.
Variable body : nat -> S -> option S.
Variable Inv : S -> Prop.

Lemma for_each_preserves (ks : list nat) :
  (forall k s s', k ∈ ks -> Inv s -> body k s = Some s' -> Inv s') ->
  forall s s', Inv s -> for_each ks body s = Some s' -> Inv s'.
Proof.
  induction ks as [|k ks IH]; intros Hbody s s' Hs Hrun; simpl in Hrun.
  - now injection Hrun as <-.
  - destruct (body k s) as [s1|] eqn:Hk; simpl in Hrun; [|discriminate].
    apply (IH (fun k' a b Hin => Hbody k' a b (list_elem_of_further _ _ _ Hin)) s1 s');
      [|exact Hrun].
    apply (Hbody k s s1); [left | exact Hs | exact Hk].
Qed.

Lemma for_each_runs (ks : list nat) :
  (forall k s, k ∈ ks -> Inv s -> exists s', body k s = Some s' /\ Inv s') ->
  forall s, Inv s -> exists s', for_each ks body s = Some s' /\ Inv s'.
Proof.
  induction ks as [|k ks IH]; intros Hbody s Hs; simpl.
  - now exists s.
  - destruct (Hbody k s) as (s1 & Hk & Hs1); [left | exact Hs |].
    rewrite Hk. simpl.
    apply IH; [|exact Hs1].
    intros k' a Hin. apply Hbody. now right.
Qed.

Lemma for_each_fails (ks : list nat) (s : S) :
  for_each ks body s = None ->
  exists k s1, k ∈ ks /\ body k s1 = None.
Proof.
  revert s. induction ks as [|k ks IH]; intros s Hrun; simpl in Hrun; [discriminate|].
  destruct (body k s) as [s1|] eqn:Hk; simpl in Hrun.
  - destruct (IH s1 Hrun) as (k' & s2 & Hin & Hnone).
    exists k', s2. split; [now right | exact Hnone].
  - exists k, s. split; [left | exact Hk].
Qed.
End ForEach.

Lemma elem_of_range (a b k : nat) : k ∈ range a b <-> (a <= k < b)%nat.
Proof. unfold range. rewrite elem_of_seq. lia. Qed.

(** ** The PBC check *)

Lemma copysign1_nonneg (d : R) : 0 <= d -> LJ.copysign1 d = 1.
Proof. intros H. unfold LJ.copysign1. destruct (Rlt_dec d 0); [lra | reflexivity]. Qed.

Lemma copysign1_neg (d : R) : d < 0 -> LJ.copysign1 d = -1.
Proof. intros H. unfold LJ.copysign1. destruct (Rlt_dec d 0); [reflexivity | lra]. Qed.

Lemma pbc_near (L d : R) :
  Rabs d < 0.5 -> LJ.pbc L d = d - 0.5 * L * LJ.copysign1 d.
Proof. intros H. unfold LJ.pbc. destruct (Rlt_dec (Rabs d) 0.5); [reflexivity | lra]. Qed.

Lemma pbc_far (L d : R) : 0.5 <= Rabs d -> LJ.pbc L d = d.
Proof. intros H. unfold LJ.pbc. destruct (Rlt_dec (Rabs d) 0.5); [lra | reflexivity]. Qed.

Lemma pbc_zero (L : R) : LJ.pbc L 0 = -0.5 * L.
Proof.
  rewrite pbc_near by (rewrite Rabs_R0; lra).
  rewrite copysign1_nonneg by lra. lra.
Qed.

(** The corrected component vanishes exactly when the raw one has magnitude
    [L/2] below the constant [0.5], or when both [L] and it are zero. *)
Lemma pbc_eq_0 (L d : R) :
  LJ.pbc L d = 0 <-> Rabs d < 0.5 /\ Rabs d = 0.5 * L.
Proof.
  unfold LJ.pbc, LJ.copysign1.
  destruct (Rlt_dec (Rabs d) 0.5) as [Hn|Hf]; destruct (Rlt_dec d 0) as [Hd|Hd].
  - rewrite (Rabs_left d Hd) in *. split; [intros; split; lra | intros [_ ?]; lra].
  - rewrite (Rabs_right d) in * by lra. split; [intros; split; lra | intros [_ ?]; lra].
  - split; [intros; lra | intros [? _]; lra].
  - split; [|intros [? _]; lra].
    intros ->. rewrite Rabs_R0 in Hf. lra.
Qed.

(** In a box of edge at least [1] no corrected component is ever zero. *)
Lemma pbc_nonzero_big_box (L d : R) : 1 <= L -> LJ.pbc L d <> 0.
Proof.
  intros HL H0. apply pbc_eq_0 in H0 as [Hn He]. lra.
Qed.

(** ** Lengths and the pair force *)

Lemma vdot_self_nonneg (a : vec) : 0 <= vdot a a.
Proof. unfold vdot. nra. Qed.

Lemma vdot_self_eq_0 (a : vec) : vdot a a = 0 <-> a = vzero.
Proof.
  split.
  - intros H. unfold vdot in H. apply vec_eq; simpl; nra.
  - intros ->. unfold vdot, vzero. simpl. ring.
Qed.

Lemma vnorm_eq_0 (a : vec) : vnorm a = 0 <-> a = vzero.
Proof.
  unfold vnorm. rewrite <- vdot_self_eq_0. split.
  - intros H. apply sqrt_eq_0; [apply vdot_self_nonneg | exact H].
  - intros ->. apply sqrt_0.
Qed.

Lemma vnorm_nonneg (a : vec) : 0 <= vnorm a.
Proof. apply sqrt_pos. Qed.

Lemma vnorm_sqr (a : vec) : vnorm a * vnorm a = vdot a a.
Proof. apply sqrt_sqrt, vdot_self_nonneg. Qed.

(** A row of squared length [r * r], [r] positive, has length [r]. *)
Lemma vnorm_of_sqr (a : vec) (r : R) : 0 <= r -> vdot a a = r * r -> vnorm a = r.
Proof. intros Hr H. unfold vnorm. rewrite H. now apply sqrt_square. Qed.

(** [lj_f] has no value exactly at distance zero. *)
Lemma lj_f_None (dx : vec) : LJ.lj_f dx = None <-> vnorm dx = 0.
Proof.
  unfold LJ.lj_f. fold (vnorm dx).
  destruct (Req_dec_T (vnorm dx) 0) as [H0|H0]; split; intros H;
    (reflexivity || discriminate || assumption || contradiction).
Qed.

(** Away from distance zero [lj_f] is [lj_magnitude] times the unit vector. *)
Lemma lj_f_Some (dx : vec) :
  vnorm dx <> 0 ->
  LJ.lj_f dx = Some (vscale (lj_magnitude (vnorm dx)) (vdiv dx (vnorm dx))).
Proof.
  intros H0. unfold LJ.lj_f. fold (vnorm dx).
  destruct (Req_dec_T (vnorm dx) 0) as [H|_]; [contradiction|].
  f_equal. f_equal.
  unfold lj_magnitude, LJ.sigma7, LJ.sigma6.
  rewrite <- (vnorm_sqr dx). field. exact H0.
Qed.

Lemma lj_f_is_Some (dx : vec) :
  vnorm dx <> 0 -> exists g, LJ.lj_f dx = Some g.
Proof. intros H. eexists. now apply lj_f_Some. Qed.

Lemma vnorm_vdiv_unit (dx : vec) : vnorm dx <> 0 -> vnorm (vdiv dx (vnorm dx)) = 1.
Proof.
  intros H0. apply vnorm_of_sqr; [lra|].
  transitivity (vdot dx dx / (vnorm dx * vnorm dx)).
  - unfold vdiv, vdot, vmap. simpl. field. exact H0.
  - rewrite vnorm_sqr. field. rewrite <- vnorm_sqr. nra.
Qed.

Lemma vnorm_vscale (s : R) (a : vec) : vnorm (vscale s a) = Rabs s * vnorm a.
Proof.
  unfold vnorm.
  replace (vdot (vscale s a) (vscale s a)) with ((s * s) * vdot a a)
    by (unfold vdot, vscale, vmap; simpl; ring).
  rewrite sqrt_mult_alt by nra.
  f_equal. replace (s * s) with (s²) by reflexivity. apply sqrt_Rsqr_abs.
Qed.

(** ** lj_force: shape, net force, and when it has a value *)

Lemma for_each_visits {S : Type} (body : nat -> S -> option S) (ks : list nat) :
  forall s s', for_each ks body s = Some s' ->
  forall k, k ∈ ks -> exists s1 s2, body k s1 = Some s2.
Proof.
  induction ks as [|k0 ks IH]; intros s s' Hrun k Hin; simpl in Hrun.
  - inversion Hin.
  - destruct (body k0 s) as [s1|] eqn:Hk; simpl in Hrun; [|discriminate].
    apply elem_of_cons in Hin as [->|Hin]; [now exists s, s1|].
    exact (IH s1 s' Hrun k Hin).
Qed.

(** What one pair does to the force array. *)
Lemma pair_inv (x : array) (L : R) (i j : nat) (f f' : array) :
  LJ.pair x L i j f = Some f' ->
  exists xi xj g,
    x !! i = Some xi /\ x !! j = Some xj /\
    LJ.lj_f (LJ.separation L xi xj) = Some g /\
    f' = alter (fun fj => vadd fj g) j (alter (fun fi => vsub fi g) i f).
Proof.
  unfold LJ.pair. intros H.
  destruct (x !! i) as [xi|]; [|discriminate].
  destruct (x !! j) as [xj|]; [|discriminate].
  change (LJ.lj_f (LJ.separation L xi xj) ≫= (fun g =>
            Some (alter (fun fj => vadd fj g) j (alter (fun fi => vsub fi g) i f)))
          = Some f') in H.
  destruct (LJ.lj_f (LJ.separation L xi xj)) as [g|] eqn:Hg; [|discriminate].
  injection H as <-. exists xi, xj, g. repeat split; first [reflexivity | exact Hg].
Qed.

Lemma pair_length (x : array) (L : R) (i j : nat) (f f' : array) :
  LJ.pair x L i j f = Some f' -> length f' = length f.
Proof.
  intros H. apply pair_inv in H as (xi & xj & g & _ & _ & _ & ->).
  now rewrite !length_alter.
Qed.

(** Newton's third law in the accumulation: what row [i] loses row [j] gains. *)
Lemma pair_asum (x : array) (L : R) (i j : nat) (f f' : array) :
  (i < length f)%nat -> (j < length f)%nat ->
  LJ.pair x L i j f = Some f' -> asum f' = asum f.
Proof.
  intros Hi Hj H. apply pair_inv in H as (xi & xj & g & _ & _ & _ & ->).
  destruct (lookup_lt_is_Some_2 f i Hi) as [fi Hfi].
  set (f1 := alter (fun fi0 => vsub fi0 g) i f).
  assert (Hj1 : (j < length f1)%nat) by (unfold f1; now rewrite length_alter).
  destruct (lookup_lt_is_Some_2 f1 j Hj1) as [fj Hfj].
  rewrite (asum_alter _ j f1 fj Hfj). unfold f1.
  rewrite (asum_alter _ i f fi Hfi). vec_ring.
Qed.

Lemma pair_runs (x : array) (L : R) (i j : nat) (f : array) (xi xj : vec) :
  x !! i = Some xi -> x !! j = Some xj -> pair_distance L xi xj <> 0 ->
  exists f', LJ.pair x L i j f = Some f'.
Proof.
  intros Hi Hj Hd. unfold LJ.pair. rewrite Hi, Hj. simpl.
  destruct (lj_f_is_Some _ Hd) as [g ->]. simpl. eauto.
Qed.

Lemma lj_inv_zeros (N : nat) : lj_inv N (zeros N).
Proof. split; [apply length_replicate | apply asum_zeros]. Qed.

Lemma lj_inv_pair (x : array) (L : R) (i j : nat) (f f' : array) :
  (i < length x)%nat -> (j < length x)%nat ->
  lj_inv (length x) f -> LJ.pair x L i j f = Some f' -> lj_inv (length x) f'.
Proof.
  intros Hi Hj [Hlen Hsum] H. split.
  - now rewrite (pair_length _ _ _ _ _ _ H).
  - rewrite <- Hlen in Hi, Hj. now rewrite (pair_asum _ _ _ _ _ _ Hi Hj H).
Qed.

Lemma lj_force_inv (x : array) (L : R) (f : array) :
  LJ.lj_force x L = Some f -> lj_inv (length x) f.
Proof.
  unfold LJ.lj_force. intros H.
  refine (for_each_preserves _ (lj_inv (length x)) _ _ _ _ (lj_inv_zeros _) H).
  intros i s s' Hi Hs Hrow. apply elem_of_range in Hi.
  refine (for_each_preserves _ (lj_inv (length x)) _ _ _ _ Hs Hrow).
  intros j a b Hj Ha Hpair. apply elem_of_range in Hj.
  apply (lj_inv_pair x L i j a b); [lia | lia | exact Ha | exact Hpair].
Qed.

Lemma lj_force_runs (x : array) (L : R) :
  (forall i j xi xj, (i < j)%nat -> x !! i = Some xi -> x !! j = Some xj ->
     pair_distance L xi xj <> 0) ->
  exists f, LJ.lj_force x L = Some f.
Proof.
  intros Hd. unfold LJ.lj_force.
  destruct (for_each_runs
              (fun i => for_each (range (i + 1) (length x)) (LJ.pair x L i))
              (lj_inv (length x)) (range 0 (length x - 1))) with (s := zeros (length x))
    as (f & Hf & _); [|apply lj_inv_zeros|now exists f].
  intros i s Hi Hs. apply elem_of_range in Hi.
  apply for_each_runs; [|exact Hs].
  intros j a Hj Ha. apply elem_of_range in Hj.
  destruct (lookup_lt_is_Some_2 x i) as [xi Hxi]; [lia|].
  destruct (lookup_lt_is_Some_2 x j) as [xj Hxj]; [lia|].
  destruct (pair_runs x L i j a xi xj Hxi Hxj) as [f' Hf'].
  - apply (Hd i j); [lia | exact Hxi | exact Hxj].
  - exists f'. split; [exact Hf'|].
    apply (lj_inv_pair x L i j a f'); [lia | lia | exact Ha | exact Hf'].
Qed.

(** [lj_force] has a value exactly when no pair is at distance zero. *)
Lemma lj_force_None (x : array) (L : R) :
  LJ.lj_force x L = None <->
  exists i j xi xj, (i < j)%nat /\ x !! i = Some xi /\ x !! j = Some xj /\
    pair_distance L xi xj = 0.
Proof.
  split.
  - intros H. unfold LJ.lj_force in H.
    apply for_each_fails in H as (i & s1 & Hi & Hrow). apply elem_of_range in Hi.
    apply for_each_fails in Hrow as (j & a & Hj & Hpair). apply elem_of_range in Hj.
    destruct (lookup_lt_is_Some_2 x i) as [xi Hxi]; [lia|].
    destruct (lookup_lt_is_Some_2 x j) as [xj Hxj]; [lia|].
    exists i, j, xi, xj. repeat split; [lia | exact Hxi | exact Hxj |].
    apply lj_f_None. unfold LJ.pair in Hpair. rewrite Hxi, Hxj in Hpair.
    change (LJ.lj_f (LJ.separation L xi xj) ≫= (fun g =>
              Some (alter (fun fj => vadd fj g) j (alter (fun fi => vsub fi g) i a)))
            = None) in Hpair.
    destruct (LJ.lj_f (LJ.separation L xi xj)); [discriminate | reflexivity].
  - intros (i & j & xi & xj & Hij & Hi & Hj & H0).
    destruct (LJ.lj_force x L) as [f|] eqn:Hf; [|reflexivity]. exfalso.
    unfold LJ.lj_force in Hf.
    pose proof (lookup_lt_Some _ _ _ Hj) as Hjlt.
    destruct (for_each_visits _ _ _ _ Hf i) as (s1 & s2 & Hrow);
      [apply elem_of_range; lia|].
    destruct (for_each_visits _ _ _ _ Hrow j) as (a & b & Hpair);
      [apply elem_of_range; lia|].
    apply pair_inv in Hpair as (xi' & xj' & g & Hi' & Hj' & Hg & _).
    assert (xi' = xi) by congruence. assert (xj' = xj) by congruence. subst.
    apply lj_f_None in H0. unfold pair_distance in H0. congruence.
Qed.

Lemma coord_vmap (g : R -> R) (l : nat) (a : vec) : coord l (vmap g a) = g (coord l a).
Proof. destruct l as [|[|l]]; reflexivity. Qed.

Lemma coord_vsub (l : nat) (a b : vec) : coord l (vsub a b) = coord l a - coord l b.
Proof. destruct l as [|[|l]]; reflexivity. Qed.

Lemma separation_coord (L : R) (xi xj : vec) (l : nat) :
  coord l (LJ.separation L xi xj) = LJ.pbc L (coord l xi - coord l xj).
Proof. unfold LJ.separation. now rewrite coord_vmap, coord_vsub. Qed.

(** In a box of edge at least [1] every pair distance is nonzero. *)
Lemma pair_distance_big_box (L : R) (xi xj : vec) :
  1 <= L -> pair_distance L xi xj <> 0.
Proof.
  intros HL H. apply vnorm_eq_0 in H.
  apply (pbc_nonzero_big_box L (coord 0 xi - coord 0 xj) HL).
  rewrite <- separation_coord, H. reflexivity.
Qed.

Lemma compute_forces_big_box (x : array) (L : R) :
  1 <= L -> exists f, compute_forces x L = Some f.
Proof.
  intros HL. apply lj_force_runs. intros. now apply pair_distance_big_box.
Qed.

(** The whole of [lj_force] on two particles: a single pair. *)
Lemma lj_force_two (a b : vec) (L : R) :
  LJ.lj_force [a; b] L =
  g ← LJ.lj_f (LJ.separation L a b); Some [vsub vzero g; vadd vzero g].
Proof.
  unfold LJ.lj_force, LJ.pair, range. simpl.
  destruct (LJ.lj_f (LJ.separation L a b)); reflexivity.
Qed.

(** ** The claims about lj_force *)

(** C1 (the code departs from the claim).  The claim: a component of
    [dx] whose magnitude exceeds [L/2] is shifted by one box length against
    its sign, and any other component is left alone.  [lj_force] tests
    [abs(dx[l]) < 0.5] and shifts by [0.5*L]: in a box of edge [10], for the
    separation [(8, 0.2, 3)], it leaves [8] (the claim: [-2]) and turns
    [0.2] into [-4.8] (the claim: unchanged). *)
Theorem C1_pbc_check_at_failing_input :
  LJ.separation 10 (V3 8 0.2 3) (V3 0 0 0) = V3 8 (-4.8) 3 /\
  vmap (min_image_spec 10) (vsub (V3 8 0.2 3) (V3 0 0 0)) = V3 (-2) 0.2 3.
Proof.
  split.
  - apply vec_eq; unfold LJ.separation; vec_unfold.
    + rewrite pbc_far by (rewrite Rabs_right; lra). lra.
    + rewrite pbc_near by (rewrite Rabs_right; lra).
      rewrite copysign1_nonneg by lra. lra.
    + rewrite pbc_far by (rewrite Rabs_right; lra). lra.
  - unfold min_image_spec. apply vec_eq; vec_unfold.
    + destruct (Rgt_dec (Rabs (8 - 0)) (10 / 2)) as [_|H].
      * rewrite copysign1_nonneg by lra. lra.
      * rewrite Rabs_right in H by lra. lra.
    + destruct (Rgt_dec (Rabs (0.2 - 0)) (10 / 2)) as [H|_]; [|lra].
      rewrite Rabs_right in H by lra. lra.
    + destruct (Rgt_dec (Rabs (3 - 0)) (10 / 2)) as [H|_]; [|lra].
      rewrite Rabs_right in H by lra. lra.
Qed.

(** C3 (as the code has it).  For a pair of rows with corrected separation
    [dx] at distance [r > 0], the contribution [lj_f] is
    [lj_magnitude r = 24*eps*sigma^7/r^7 * (2*sigma^6/r^6 - 1)] times the unit
    vector [dx/r]; it is taken from row [i] and added to row [j], and its
    length is the absolute value of that magnitude. *)
Theorem C3_pair_force (x : array) (L : R) (i j : nat) (f : array) (xi xj : vec) :
  x !! i = Some xi -> x !! j = Some xj ->
  0 < pair_distance L xi xj ->
  let dx := LJ.separation L xi xj in
  let r := pair_distance L xi xj in
  let g := vscale (lj_magnitude r) (vdiv dx r) in
  LJ.lj_f dx = Some g /\
  LJ.pair x L i j f =
    Some (alter (fun fj => vadd fj g) j (alter (fun fi => vsub fi g) i f)) /\
  vnorm (vdiv dx r) = 1 /\
  vnorm g = Rabs (lj_magnitude r).
Proof.
  intros Hi Hj Hr dx r g.
  assert (Hr0 : vnorm dx <> 0) by (unfold pair_distance in Hr; fold dx in Hr; lra).
  assert (Hg : LJ.lj_f dx = Some g) by (apply lj_f_Some; exact Hr0).
  repeat split.
  - exact Hg.
  - unfold LJ.pair. rewrite Hi, Hj. simpl. fold dx. rewrite Hg. reflexivity.
  - apply vnorm_vdiv_unit. exact Hr0.
  - unfold g. rewrite vnorm_vscale.
    unfold r, pair_distance. fold dx. rewrite (vnorm_vdiv_unit dx Hr0). ring.
Qed.

Lemma separation_far (L : R) (xi xj : vec) :
  0.5 <= Rabs (c0 xi - c0 xj) -> 0.5 <= Rabs (c1 xi - c1 xj) ->
  0.5 <= Rabs (c2 xi - c2 xj) ->
  LJ.separation L xi xj = vsub xi xj.
Proof.
  intros H0 H1 H2. apply vec_eq; unfold LJ.separation; vec_unfold;
    now apply pbc_far.
Qed.

Lemma C3_example_separation :
  LJ.separation 10 (V3 2 2 1) (V3 0 0 0) = V3 2 2 1 /\
  pair_distance 10 (V3 2 2 1) (V3 0 0 0) = 3.
Proof.
  assert (H : LJ.separation 10 (V3 2 2 1) (V3 0 0 0) = V3 2 2 1).
  { rewrite separation_far by (simpl; rewrite Rabs_right; lra).
    apply vec_eq; vec_unfold; lra. }
  split; [exact H|].
  unfold pair_distance. rewrite H.
  apply vnorm_of_sqr; [lra | unfold vdot; simpl; lra].
Qed.

Lemma C3_pair_force_witness :
  LJ.pair [V3 2 2 1; V3 0 0 0] 10 0 1 (zeros 2) =
    Some [vsub vzero (vscale (lj_magnitude 3) (vdiv (V3 2 2 1) 3));
          vadd vzero (vscale (lj_magnitude 3) (vdiv (V3 2 2 1) 3))].
Proof.
  destruct C3_example_separation as [Hdx Hr].
  pose proof (C3_pair_force [V3 2 2 1; V3 0 0 0] 10 0 1 (zeros 2)
                (V3 2 2 1) (V3 0 0 0) eq_refl eq_refl) as H.
  rewrite Hdx, Hr in H.
  destruct H as (_ & H & _); [lra|]. exact H.
Defined.

(** C3, the claim as stated, fails: at the separation [(2, 2, 1)], distance
    [3], the contribution is not [spec_magnitude 3] times the unit vector,
    nor has it that length. *)
Lemma C3_counterexample :
  let dx := LJ.separation 10 (V3 2 2 1) (V3 0 0 0) in
  let r := pair_distance 10 (V3 2 2 1) (V3 0 0 0) in
  0 < r /\
  LJ.lj_f dx <> Some (vscale (spec_magnitude r) (vdiv dx r)) /\
  (forall g, LJ.lj_f dx = Some g -> vnorm g <> Rabs (spec_magnitude r)).
Proof.
  destruct C3_example_separation as [Hdx Hr]. simpl. rewrite Hdx, Hr.
  assert (Hn : vnorm (V3 2 2 1) = 3)
    by (apply vnorm_of_sqr; [lra | unfold vdot; simpl; lra]).
  assert (Hg : LJ.lj_f (V3 2 2 1) =
               Some (vscale (lj_magnitude 3) (vdiv (V3 2 2 1) 3))).
  { rewrite lj_f_Some by (rewrite Hn; lra). now rewrite Hn. }
  assert (Hl : lj_magnitude 3 = - (24 * 727) / (2187 * 729))
    by (unfold lj_magnitude, LJ.eps, LJ.sigma; field).
  assert (Hs : spec_magnitude 3 = - (24 * 727) / (729 * 729))
    by (unfold spec_magnitude, LJ.eps, LJ.sigma; field).
  split; [lra|]. split.
  - rewrite Hg. intros H. injection H as H _ _. rewrite Hl, Hs in H. lra.
  - intros g Hg'. rewrite Hg in Hg'. injection Hg' as <-.
    rewrite vnorm_vscale.
    assert (Hu : vnorm (vdiv (V3 2 2 1) (vnorm (V3 2 2 1))) = 1)
      by (apply vnorm_vdiv_unit; rewrite Hn; lra).
    rewrite Hn in Hu. rewrite Hu, Hl, Hs, !Rabs_left by lra. lra.
Qed.

(** The distance of a pair is zero exactly when every raw component of the
    separation has magnitude [L/2] and lies below the constant [0.5]. *)
Lemma pair_distance_eq_0 (L : R) (xi xj : vec) :
  pair_distance L xi xj = 0 <->
  forall l, Rabs (coord l xi - coord l xj) < 0.5 /\
            Rabs (coord l xi - coord l xj) = 0.5 * L.
Proof.
  unfold pair_distance. rewrite vnorm_eq_0. split.
  - intros H l. apply pbc_eq_0. rewrite <- separation_coord, H.
    destruct l as [|[|l]]; reflexivity.
  - intros H. apply vec_eq; simpl.
    + apply (pbc_eq_0 L (coord 0 xi - coord 0 xj)), H.
    + apply (pbc_eq_0 L (coord 1 xi - coord 1 xj)), H.
    + apply (pbc_eq_0 L (coord 2 xi - coord 2 xj)), H.
Qed.

(** C2 (the code departs from the claim).  The claim: for every positions
    array whose pairwise minimum-image distances are nonzero, the forces of
    [compute_forces] sum to the zero vector.  In a box of edge [0.5] the
    rows [(0.25, 0.25, 0.25)] and [(0, 0, 0)] have a nonzero minimum-image
    separation, [(0.25, 0.25, 0.25)], but the PBC check of [lj_force] brings
    them to distance zero and [compute_forces] has no value, so no force
    array and no zero sum. *)
Theorem C2_net_force_at_failing_input :
  vmap (min_image_spec 0.5) (vsub (V3 0.25 0.25 0.25) (V3 0 0 0))
    = V3 0.25 0.25 0.25 /\
  vnorm (vmap (min_image_spec 0.5) (vsub (V3 0.25 0.25 0.25) (V3 0 0 0))) <> 0 /\
  pair_distance 0.5 (V3 0.25 0.25 0.25) (V3 0 0 0) = 0 /\
  compute_forces [V3 0.25 0.25 0.25; V3 0 0 0] 0.5 = None.
Proof.
  assert (Hmi : vmap (min_image_spec 0.5) (vsub (V3 0.25 0.25 0.25) (V3 0 0 0))
                = V3 0.25 0.25 0.25).
  { assert (H1 : min_image_spec 0.5 (0.25 - 0) = 0.25).
    { unfold min_image_spec.
      destruct (Rgt_dec (Rabs (0.25 - 0)) (0.5 / 2)) as [H|_]; [|lra].
      rewrite Rabs_right in H by lra. lra. }
    apply vec_eq; vec_unfold; exact H1. }
  assert (H0 : pair_distance 0.5 (V3 0.25 0.25 0.25) (V3 0 0 0) = 0).
  { apply pair_distance_eq_0. intros [|[|l]]; simpl;
      (rewrite Rabs_right by lra); lra. }
  split; [exact Hmi|]. split; [|split].
  - rewrite Hmi. intros H. apply vnorm_eq_0 in H.
    apply (f_equal c0) in H. simpl in H. lra.
  - exact H0.
  - unfold compute_forces. rewrite lj_force_two.
    apply lj_f_None in H0. unfold pair_distance in H0. now rewrite H0.
Qed.

(** C7 (the code departs from the claim).  The claim: the distance is zero
    only for coincident particles, so distinct positions never divide by
    zero.  In a box of edge [0.5] the distinct rows [(0.25, 0.25, 0.25)] and
    [(0, 0, 0)] are brought to distance zero by the PBC check and
    [compute_forces] has no value; two coincident rows in a box of edge [10]
    are put at a nonzero distance and it has one. *)
Theorem C7_zero_distance_at_failing_input :
  V3 0.25 0.25 0.25 <> V3 0 0 0 :> vec /\
  pair_distance 0.5 (V3 0.25 0.25 0.25) (V3 0 0 0) = 0 /\
  compute_forces [V3 0.25 0.25 0.25; V3 0 0 0] 0.5 = None /\
  pair_distance 10 (V3 1 1 1) (V3 1 1 1) <> 0 /\
  compute_forces [V3 1 1 1; V3 1 1 1] 10 <> None.
Proof.
  assert (H0 : pair_distance 0.5 (V3 0.25 0.25 0.25) (V3 0 0 0) = 0).
  { apply pair_distance_eq_0. intros [|[|l]]; simpl;
      (rewrite Rabs_right by lra); lra. }
  repeat split.
  - intros H. injection H as H _ _. lra.
  - exact H0.
  - unfold compute_forces. rewrite lj_force_two.
    apply lj_f_None in H0. unfold pair_distance in H0. now rewrite H0.
  - apply pair_distance_big_box. lra.
  - destruct (compute_forces_big_box [V3 1 1 1; V3 1 1 1] 10) as [f ->]; [lra|].
    discriminate.
Qed.

(** ** The Lennard-Jones minimum *)

Lemma r_min_pow6 : r_min ^ 6 = 2.
Proof.
  unfold r_min, LJ.sigma. rewrite Rmult_1_r.
  rewrite <- Rpower_pow by apply exp_pos.
  rewrite Rpower_mult. replace (/ 6 * INR 6) with 1 by (simpl; field).
  apply Rpower_1. lra.
Qed.

Lemma r_min_ge_1 : 1 <= r_min.
Proof.
  unfold r_min, LJ.sigma. rewrite Rmult_1_r.
  rewrite <- (Rpower_O 2) by lra. apply Rle_Rpower; lra.
Qed.

(** At the distance [r_min] the magnitude that [lj_force] computes is zero. *)
Lemma lj_magnitude_r_min : lj_magnitude r_min = 0.
Proof.
  pose proof r_min_pow6 as H6. pose proof r_min_ge_1 as H1.
  unfold lj_magnitude, LJ.eps, LJ.sigma.
  replace (r_min ^ 7) with (r_min ^ 6 * r_min) by ring.
  rewrite H6. field. lra.
Qed.

(** The magnitude is negative beyond [r_min]. *)
Lemma lj_magnitude_neg (r : R) : 0 < r -> 2 < r ^ 6 -> lj_magnitude r < 0.
Proof.
  intros Hr H6. unfold lj_magnitude, LJ.eps, LJ.sigma.
  assert (H7 : 0 < r ^ 7) by (apply pow_lt; exact Hr).
  assert (Hi7 : 0 < / r ^ 7) by (apply Rinv_0_lt_compat; exact H7).
  assert (Hi6 : / r ^ 6 < / 2) by (apply Rinv_lt_contravar; lra).
  replace (24 * 1 * 1 ^ 7 / r ^ 7 * (2 * 1 ^ 6 / r ^ 6 - 1))
    with (24 * / r ^ 7 * (2 * / r ^ 6 - 1)) by (field; lra).
  nra.
Qed.

(** C8 (the code departs from the claim).  The claim: two particles at the
    separation [r_min] along one axis, equal on the other two, in a box with
    no closer periodic image, feel no force.  In a box of edge [3] the two
    zero components of the separation are turned into [-1.5] by the PBC
    check, the distance is not [r_min], and the force on each particle has a
    component of magnitude above [0.01]. *)
Theorem C8_force_at_failing_input :
  exists f0 f1,
    compute_forces [V3 r_min 0 0; V3 0 0 0] 3 = Some [f0; f1] /\
    LJ.separation 3 (V3 r_min 0 0) (V3 0 0 0) = V3 r_min (-1.5) (-1.5) /\
    c1 f0 < -0.01 /\ 0.01 < c1 f1.
Proof.
  pose proof r_min_ge_1 as H1. pose proof r_min_pow6 as H6.
  assert (Hsep : LJ.separation 3 (V3 r_min 0 0) (V3 0 0 0)
                 = V3 r_min (-1.5) (-1.5)).
  { apply vec_eq; unfold LJ.separation; vec_unfold.
    - rewrite pbc_far by (rewrite Rabs_right; lra). lra.
    - rewrite Rminus_0_r, pbc_zero. lra.
    - rewrite Rminus_0_r, pbc_zero. lra. }
  set (dx := V3 r_min (-1.5) (-1.5)) in *.
  set (n := vnorm dx).
  (* the squared distance lies between 5.5 and 6.5 *)
  assert (Ha : 1 <= r_min * r_min <= 2).
  { split; [nra|].
    assert (Hc : (r_min * r_min) ^ 3 = 2) by (rewrite <- H6; ring).
    assert (0 <= r_min * r_min * (r_min * r_min - 1)) by nra.
    nra. }
  assert (Hq : n * n = r_min * r_min + 4.5).
  { unfold n. rewrite vnorm_sqr. unfold vdot, dx. simpl. lra. }
  assert (Hn0 : 0 <= n) by apply vnorm_nonneg.
  assert (Hn : 2 < n) by nra.
  assert (Hq3 : 5.5 ^ 3 <= (n * n) ^ 3) by (apply pow_incr; lra).
  assert (Hq7 : (n * n) ^ 7 <= 6.5 ^ 7) by (apply pow_incr; nra).
  assert (Hq7pos : 0 < (n * n) ^ 7) by (apply pow_lt; nra).
  set (g := vscale (lj_magnitude n) (vdiv dx n)).
  assert (Hg1 : c1 g = 36 * ((n * n) ^ 3 - 2) / (n * n) ^ 7).
  { unfold g, vscale, vdiv, vmap, lj_magnitude, LJ.eps, LJ.sigma. simpl.
    replace (-1.5) with (- (3 / 2)) by lra. field. lra. }
  assert (Hbig : 0.01 < c1 g).
  { rewrite Hg1.
    set (q3 := (n * n) ^ 3) in *. set (q7 := (n * n) ^ 7) in *.
    apply Rmult_lt_reg_r with q7; [exact Hq7pos|].
    replace (36 * (q3 - 2) / q7 * q7) with (36 * (q3 - 2)) by (field; lra).
    lra. }
  exists (vsub vzero g), (vadd vzero g). repeat split.
  - unfold compute_forces. rewrite lj_force_two, Hsep.
    rewrite lj_f_Some by (fold n; lra). reflexivity.
  - exact Hsep.
  - vec_unfold. lra.
  - vec_unfold. lra.
Qed.

(** C10.  A raw separation component that is exactly [0] passes the test of
    the PBC check and becomes [-0.5*L]: two rows that agree on coordinate
    [l] get a separation whose component [l] is [-0.5*L], of magnitude half
    the box edge, and the pair force is [lj_f] of that separation. *)
Theorem C10_equal_coordinate (x : array) (L : R) (i j : nat) (f : array)
    (xi xj : vec) (l : nat) :
  x !! i = Some xi -> x !! j = Some xj ->
  coord l xi = coord l xj ->
  coord l (vsub xi xj) = 0 /\
  LJ.pbc L 0 = -0.5 * L /\
  coord l (LJ.separation L xi xj) = -0.5 * L /\
  Rabs (coord l (LJ.separation L xi xj)) = Rabs L / 2 /\
  LJ.pair x L i j f =
    g ← LJ.lj_f (LJ.separation L xi xj);
    Some (alter (fun fj => vadd fj g) j (alter (fun fi => vsub fi g) i f)).
Proof.
  intros Hi Hj Hl.
  assert (Hs : coord l (LJ.separation L xi xj) = -0.5 * L)
    by (rewrite separation_coord, Hl, Rminus_diag; apply pbc_zero).
  repeat split.
  - rewrite coord_vsub, Hl. ring.
  - apply pbc_zero.
  - exact Hs.
  - rewrite Hs. replace (-0.5 * L) with (- (L / 2)) by lra.
    rewrite Rabs_Ropp. unfold Rdiv. rewrite Rabs_mult.
    f_equal. apply Rabs_right. lra.
  - unfold LJ.pair. rewrite Hi, Hj. reflexivity.
Qed.

Lemma C10_equal_coordinate_witness :
  coord 1 (LJ.separation 10 (V3 3 4 5) (V3 1 4 2)) = -0.5 * 10.
Proof.
  apply (C10_equal_coordinate [V3 3 4 5; V3 1 4 2] 10 0 1 (zeros 2)
           (V3 3 4 5) (V3 1 4 2) 1%nat eq_refl eq_refl eq_refl).
Defined.

(** ** The wrap into the box *)

Lemma all_coords_coord (P : R -> Prop) (x : array) (i l : nat) (r : vec) :
  all_coords P x -> x !! i = Some r -> P (coord l r).
Proof.
  intros Hall Hi. unfold all_coords in Hall.
  rewrite Forall_lookup in Hall. destruct (Hall i r Hi) as (H0 & H1 & H2).
  destruct l as [|[|l]]; assumption.
Qed.

Lemma coord_vadd (l : nat) (a b : vec) : coord l (vadd a b) = coord l a + coord l b.
Proof. destruct l as [|[|l]]; reflexivity. Qed.

Lemma Rabs_le_bounds (d L : R) : Rabs d <= L -> - L <= d <= L.
Proof. unfold Rabs. destruct (Rcase_abs d); lra. Qed.

(** One coordinate: a start in the box and a displacement of at most one
    box length end in the closed box. *)
Lemma wrap_closed (L c d : R) :
  0 <= c <= L -> Rabs d <= L -> 0 <= wrap L (c + d) <= L.
Proof.
  intros Hc Hd. apply Rabs_le_bounds in Hd. unfold wrap.
  destruct (Rlt_dec (c + d) 0); [lra|].
  destruct (Rgt_dec (c + d) L); lra.
Qed.

Lemma wrap_above (L u : R) : 0 <= L -> u > L -> wrap L u = u - L.
Proof.
  intros HL Hu. unfold wrap.
  destruct (Rlt_dec u 0); [lra|]. destruct (Rgt_dec u L); lra.
Qed.

Lemma wrap_below (L u : R) : u < 0 -> wrap L u = u + L.
Proof. intros Hu. unfold wrap. destruct (Rlt_dec u 0); lra. Qed.

Lemma wrap_inside (L u : R) : 0 <= u <= L -> wrap L u = u.
Proof.
  intros Hu. unfold wrap.
  destruct (Rlt_dec u 0); [lra|]. destruct (Rgt_dec u L); lra.
Qed.

Lemma update_positions_value (x v f : array) (m dt L : R) :
  m <> 0 ->
  velocity_verlet_update_positions x v f m dt L =
  Some (vmap (wrap L) <$> unwrapped x v f m dt).
Proof.
  intros Hm. unfold velocity_verlet_update_positions.
  destruct (Req_dec_T m 0); [contradiction | reflexivity].
Qed.

Lemma unwrapped_lookup (x v f : array) (m dt : R) (i : nat) (u : vec) :
  unwrapped x v f m dt !! i = Some u ->
  exists xi di,
    x !! i = Some xi /\ displacement v f m dt !! i = Some di /\ u = vadd xi di.
Proof.
  unfold unwrapped, azip. rewrite lookup_zip_with. intros H.
  destruct (x !! i) as [xi|]; [|discriminate].
  destruct (displacement v f m dt !! i) as [di|]; [|discriminate].
  injection H as <-. now exists xi, di.
Qed.

(** C4 (as the code has it).  After [velocity_verlet_update_positions], for
    positions in the closed box [[0, L]] and displacements of at most one box
    length, every coordinate is the wrap of its unwrapped value and lies in
    the closed box [[0, L]]; an unwrapped value above [L] ends at exactly
    that value minus [L]. *)
Theorem C4_wrap_into_box (x v f : array) (m dt L : R) :
  m <> 0 ->
  in_box L x ->
  all_coords (fun d => Rabs d <= L) (displacement v f m dt) ->
  exists x',
    velocity_verlet_update_positions x v f m dt L = Some x' /\
    in_box L x' /\
    forall i l u r,
      unwrapped x v f m dt !! i = Some u -> x' !! i = Some r ->
      coord l r = wrap L (coord l u) /\
      0 <= coord l r <= L /\
      (coord l u > L -> coord l r = coord l u - L).
Proof.
  intros Hm Hbox Hdisp.
  exists (vmap (wrap L) <$> unwrapped x v f m dt).
  split; [now apply update_positions_value|].
  assert (Hpt : forall i l u,
             unwrapped x v f m dt !! i = Some u ->
             exists c d, coord l u = c + d /\ 0 <= c <= L /\ Rabs d <= L).
  { intros i l u Hu.
    apply unwrapped_lookup in Hu as (xi & di & Hxi & Hdi & ->).
    exists (coord l xi), (coord l di). rewrite coord_vadd.
    split; [reflexivity|]. split.
    - exact (all_coords_coord _ x i l xi Hbox Hxi).
    - exact (all_coords_coord _ _ i l di Hdisp Hdi). }
  assert (Hin : forall i l u,
             unwrapped x v f m dt !! i = Some u -> 0 <= wrap L (coord l u) <= L).
  { intros i l u Hu. destruct (Hpt i l u Hu) as (c & d & -> & Hc & Hd).
    now apply wrap_closed. }
  split.
  - unfold in_box, all_coords. rewrite Forall_lookup. intros i r Hr.
    rewrite list_lookup_fmap in Hr.
    destruct (unwrapped x v f m dt !! i) as [u|] eqn:Hu; [|discriminate].
    injection Hr as <-. simpl.
    split; [exact (Hin i 0%nat u Hu)|].
    split; [exact (Hin i 1%nat u Hu) | exact (Hin i 2%nat u Hu)].
  - intros i l u r Hu Hr.
    rewrite list_lookup_fmap, Hu in Hr. injection Hr as <-.
    rewrite coord_vmap. split; [reflexivity|]. split; [exact (Hin i l u Hu)|].
    intros Hgt. destruct (Hpt i l u Hu) as (c & d & Hcd & Hc & Hd).
    apply wrap_above; lra.
Qed.

Lemma all_coords_one (P : R -> Prop) (a b c : R) :
  P a -> P b -> P c -> all_coords P [V3 a b c].
Proof. intros Ha Hb Hc. repeat constructor; assumption. Qed.

Lemma C4_wrap_into_box_witness :
  exists x',
    velocity_verlet_update_positions
      [V3 0.9 0.5 0.1] [V3 0.5 0 (-0.5)] [vzero] 1 1 1 = Some x' /\
    in_box 1 x'.
Proof.
  destruct (C4_wrap_into_box [V3 0.9 0.5 0.1] [V3 0.5 0 (-0.5)] [vzero] 1 1 1)
    as (x' & Hx' & Hbox & _).
  - lra.
  - apply all_coords_one; lra.
  - apply all_coords_one; simpl; apply Rabs_le; lra.
  - exists x'. split; assumption.
Defined.

(** C4, the claim as stated, fails: in a box of edge [1], a coordinate at
    [0.5] moved by [0.5] is unwrapped at exactly [1], which is neither below
    [0] nor above [1]; it stays [1], outside the half-open interval. *)
Lemma C4_counterexample :
  in_half_open_box 1 [V3 0.5 0.5 0.5] /\
  all_coords (fun d => Rabs d <= 1) (displacement [V3 0.5 0 0] [vzero] 1 1) /\
  exists x',
    velocity_verlet_update_positions
      [V3 0.5 0.5 0.5] [V3 0.5 0 0] [vzero] 1 1 1 = Some x' /\
    ~ in_half_open_box 1 x'.
Proof.
  split; [apply all_coords_one; lra|].
  split; [apply all_coords_one; simpl; apply Rabs_le; lra|].
  eexists. split; [apply update_positions_value; lra|].
  intros H. unfold in_half_open_box, all_coords in H.
  apply Forall_cons in H as [[H0 _] _]. simpl in H0.
  rewrite wrap_inside in H0 by lra. lra.
Qed.

(** ** The loop of run_md *)

Lemma for_each_snoc {S : Type} (body : nat -> S -> option S) (ks : list nat)
    (k : nat) (s : S) :
  for_each (ks ++ [k]) body s = s' ← for_each ks body s; body k s'.
Proof.
  revert s. induction ks as [|k0 ks IH]; intros s; simpl.
  - destruct (body k s); reflexivity.
  - destruct (body k0 s) as [s1|]; simpl; [apply IH | reflexivity].
Qed.

Lemma range_0_S (n : nat) : range 0 (S n) = range 0 n ++ [n].
Proof. unfold range. rewrite !Nat.sub_0_r. apply seq_S. Qed.

(** The run of [k + 1] steps is the run of [k] steps followed by step [k]. *)
Lemma run_md_from_S (x v : array) (L : R) (k : nat) (m : R) (dump : Z) (dt : R) :
  run_md_from x v L (S k) m dump dt =
  s ← run_md_from x v L k m dump dt; md_step m dt L dump k s.
Proof.
  unfold run_md_from. destruct (compute_forces x L) as [f0|]; [|reflexivity].
  change (for_each (range 0 (S k)) (md_step m dt L dump) (MdState x v f0 []) =
          s ← for_each (range 0 k) (md_step m dt L dump) (MdState x v f0 []);
          md_step m dt L dump k s).
  rewrite range_0_S. apply for_each_snoc.
Qed.

Lemma update_velocities_value (v f0 f1 : array) (m dt : R) :
  m <> 0 ->
  velocity_verlet_update_velocities v f0 f1 m dt =
  Some (azip vadd v (ascale (0.5 * dt / m) (azip vadd f0 f1))).
Proof.
  intros Hm. unfold velocity_verlet_update_velocities.
  destruct (Req_dec_T m 0); [contradiction | reflexivity].
Qed.

(** What one step of the loop does, when it has a value. *)
Lemma md_step_inv (m dt L : R) (dump : Z) (k : nat) (s s' : md_state) :
  md_step m dt L dump k s = Some s' ->
  m <> 0 /\ dump <> 0%Z /\
  exists f1,
    st_x s' = vmap (wrap L) <$> unwrapped (st_x s) (st_v s) (st_f0 s) m dt /\
    compute_forces (st_x s') L = Some f1 /\
    st_f0 s' = f1 /\
    st_v s' = azip vadd (st_v s) (ascale (0.5 * dt / m) (azip vadd (st_f0 s) f1)).
Proof.
  unfold md_step. intros H.
  destruct (Req_dec_T m 0) as [Hm|Hm].
  { unfold velocity_verlet_update_positions in H.
    destruct (Req_dec_T m 0); [discriminate | contradiction]. }
  rewrite (update_positions_value _ _ _ _ _ _ Hm) in H. simpl in H.
  destruct (compute_forces _ L) as [f1|] eqn:Hf1; simpl in H; [|discriminate].
  rewrite (update_velocities_value _ _ _ _ _ Hm) in H. simpl in H.
  destruct (dump =? 0)%Z eqn:Hdump; [discriminate|].
  apply Z.eqb_neq in Hdump.
  injection H as <-. simpl. split; [exact Hm|]. split; [exact Hdump|].
  exists f1. repeat split; first [reflexivity | exact Hf1].
Qed.

(** A step has a value for a nonzero mass, a nonzero write frequency and a
    box of edge at least [1]. *)
Lemma md_step_runs (m dt L : R) (dump : Z) (k : nat) (s : md_state) :
  m <> 0 -> dump <> 0%Z -> 1 <= L -> exists s', md_step m dt L dump k s = Some s'.
Proof.
  intros Hm Hdump HL. unfold md_step.
  rewrite (update_positions_value _ _ _ _ _ _ Hm). simpl.
  destruct (compute_forces_big_box
              (vmap (wrap L) <$> unwrapped (st_x s) (st_v s) (st_f0 s) m dt) L HL)
    as [f1 ->]. simpl.
  rewrite (update_velocities_value _ _ _ _ _ Hm). simpl.
  apply Z.eqb_neq in Hdump. rewrite Hdump. eauto.
Qed.

Lemma run_md_from_runs (x v : array) (L : R) (n : nat) (m : R) (dump : Z) (dt : R) :
  m <> 0 -> dump <> 0%Z -> 1 <= L ->
  exists s, run_md_from x v L n m dump dt = Some s.
Proof.
  intros Hm Hdump HL. induction n as [|n [s Hs]].
  - unfold run_md_from. destruct (compute_forces_big_box x L HL) as [f0 ->].
    simpl. eauto.
  - rewrite run_md_from_S, Hs. simpl. now apply md_step_runs.
Qed.

Lemma forces_length (x f : array) (L : R) :
  compute_forces x L = Some f -> length f = length x /\ asum f = vzero.
Proof. intros H. exact (lj_force_inv x L f H). Qed.

Lemma md_inv_step (N : nat) (m dt L : R) (dump : Z) (k : nat) (s s' : md_state) :
  md_inv N L s -> md_step m dt L dump k s = Some s' -> md_inv N L s'.
Proof.
  intros (Hx & Hv & Hf) Hstep.
  apply md_step_inv in Hstep as (Hm & _ & f1 & Hx' & Hf1 & Hf0' & Hv').
  destruct (forces_length _ _ _ Hf) as [Hlf0 _].
  destruct (forces_length _ _ _ Hf1) as [Hlf1 _].
  assert (Hlx' : length (st_x s') = N).
  { rewrite Hx'. unfold unwrapped, displacement, azip.
    rewrite length_fmap, !length_zip_with, !length_fmap. lia. }
  split; [exact Hlx'|]. split.
  - rewrite Hv'. unfold azip, ascale.
    rewrite length_zip_with, length_fmap, length_zip_with. lia.
  - unfold forces_current. now rewrite Hf0'.
Qed.

Lemma md_inv_run (x v : array) (L : R) (n : nat) (m : R) (dump : Z) (dt : R)
    (s : md_state) :
  length v = length x ->
  run_md_from x v L n m dump dt = Some s -> md_inv (length x) L s.
Proof.
  intros Hlen. revert s. induction n as [|n IH]; intros s Hrun.
  - unfold run_md_from in Hrun.
    destruct (compute_forces x L) as [f0|] eqn:Hf0; simpl in Hrun; [|discriminate].
    injection Hrun as <-. repeat split; simpl; [exact Hlen | exact Hf0].
  - rewrite run_md_from_S in Hrun.
    destruct (run_md_from x v L n m dump dt) as [s0|]; simpl in Hrun; [|discriminate].
    exact (md_inv_step _ _ _ _ _ _ _ _ (IH s0 eq_refl) Hrun).
Qed.

(** ** The velocity update and the momentum *)

(** C5.  In every step of a run, the velocities become
    [v + 0.5*dt/m*(f0 + f1)] row by row, where [f0] is the force array of the
    positions at the start of the step and [f1] the force array of the
    positions that the same step has updated and wrapped. *)
Theorem C5_velocity_update (x v : array) (L : R) (k : nat) (m : R) (dump : Z)
    (dt : R) (s s' : md_state) :
  length v = length x ->
  run_md_from x v L k m dump dt = Some s ->
  md_step m dt L dump k s = Some s' ->
  exists f1,
    compute_forces (st_x s) L = Some (st_f0 s) /\
    velocity_verlet_update_positions (st_x s) (st_v s) (st_f0 s) m dt L
      = Some (st_x s') /\
    compute_forces (st_x s') L = Some f1 /\
    st_v s' = azip vadd (st_v s) (ascale (0.5 * dt / m) (azip vadd (st_f0 s) f1)) /\
    forall i, (i < length x)%nat ->
      exists vi a b,
        st_v s !! i = Some vi /\ st_f0 s !! i = Some a /\ f1 !! i = Some b /\
        st_v s' !! i = Some (vadd vi (vscale (0.5 * dt / m) (vadd a b))).
Proof.
  intros Hlen Hrun Hstep.
  pose proof (md_inv_run _ _ _ _ _ _ _ _ Hlen Hrun) as (Hx & Hv & Hf0).
  pose proof (md_inv_step _ _ _ _ _ _ _ _ (conj Hx (conj Hv Hf0)) Hstep)
    as (Hx' & _ & _).
  apply md_step_inv in Hstep as (Hm & _ & f1 & Hsx & Hf1 & _ & Hsv).
  exists f1. split; [exact Hf0|]. split.
  { rewrite Hsx. now apply update_positions_value. }
  split; [exact Hf1|]. split; [exact Hsv|].
  intros i Hi.
  destruct (forces_length _ _ _ Hf0) as [Hl0 _].
  destruct (forces_length _ _ _ Hf1) as [Hl1 _].
  destruct (lookup_lt_is_Some_2 (st_v s) i) as [vi Hvi]; [lia|].
  destruct (lookup_lt_is_Some_2 (st_f0 s) i) as [a Ha]; [lia|].
  destruct (lookup_lt_is_Some_2 f1 i) as [b Hb]; [lia|].
  exists vi, a, b. repeat split; [exact Hvi | exact Ha | exact Hb |].
  rewrite Hsv. unfold azip, ascale.
  rewrite lookup_zip_with, Hvi, list_lookup_fmap, lookup_zip_with, Ha, Hb.
  reflexivity.
Qed.

Lemma C5_velocity_update_witness :
  exists s s' f1,
    run_md_from [V3 8 0.2 3; V3 0 0 0] [V3 1 0 0; V3 0 (-1) 0] 10 1 2 1 0.01
      = Some s /\
    md_step 2 0.01 10 1 1 s = Some s' /\
    compute_forces (st_x s') 10 = Some f1 /\
    st_v s' =
      azip vadd (st_v s) (ascale (0.5 * 0.01 / 2) (azip vadd (st_f0 s) f1)).
Proof.
  destruct (run_md_from_runs [V3 8 0.2 3; V3 0 0 0] [V3 1 0 0; V3 0 (-1) 0]
              10 1 2 1 0.01) as [s Hs]; [lra | lia | lra |].
  destruct (md_step_runs 2 0.01 10 1 1 s) as [s' Hs']; [lra | lia | lra |].
  destruct (C5_velocity_update [V3 8 0.2 3; V3 0 0 0] [V3 1 0 0; V3 0 (-1) 0]
              10 1 2 1 0.01 s s' eq_refl Hs Hs')
    as (f1 & _ & _ & Hf1 & Hv & _).
  exists s, s', f1. repeat split; assumption.
Defined.

(** One step leaves the total momentum as it is: the two force arrays in
    the velocity update each sum to zero. *)
Lemma momentum_step (N : nat) (m dt L : R) (dump : Z) (k : nat) (s s' : md_state) :
  md_inv N L s -> md_step m dt L dump k s = Some s' ->
  momentum m (st_v s') = momentum m (st_v s).
Proof.
  intros (Hx & Hv & Hf0) Hstep.
  apply md_step_inv in Hstep as (_ & _ & f1 & Hsx & Hf1 & _ & Hsv).
  destruct (forces_length _ _ _ Hf0) as [Hl0 Hs0].
  destruct (forces_length _ _ _ Hf1) as [Hl1 Hs1].
  assert (Hlx' : length (st_x s') = N).
  { rewrite Hsx. unfold unwrapped, displacement, azip.
    rewrite length_fmap, !length_zip_with, !length_fmap. lia. }
  unfold momentum. rewrite !asum_ascale, Hsv. f_equal.
  rewrite asum_azip_vadd.
  - rewrite asum_ascale, asum_azip_vadd by lia.
    rewrite Hs0, Hs1. vec_ring.
  - unfold ascale, azip. rewrite length_fmap, length_zip_with. lia.
Qed.

(** C6.  Along a run the total momentum stays what it was at the start,
    after any number of steps, and each further step preserves it. *)
Theorem C6_momentum_conserved (x v : array) (L : R) (n : nat) (m : R) (dump : Z)
    (dt : R) (s : md_state) :
  length v = length x ->
  run_md_from x v L n m dump dt = Some s ->
  momentum m (st_v s) = momentum m v /\
  forall s', md_step m dt L dump n s = Some s' ->
             momentum m (st_v s') = momentum m (st_v s).
Proof.
  intros Hlen Hrun. split.
  - revert s Hrun. induction n as [|n IH]; intros s Hrun.
    + unfold run_md_from in Hrun.
      destruct (compute_forces x L) as [f0|]; simpl in Hrun; [|discriminate].
      now injection Hrun as <-.
    + rewrite run_md_from_S in Hrun.
      destruct (run_md_from x v L n m dump dt) as [s0|] eqn:Hs0; simpl in Hrun;
        [|discriminate].
      rewrite <- (IH s0 eq_refl).
      exact (momentum_step _ _ _ _ _ _ _ _ (md_inv_run _ _ _ _ _ _ _ _ Hlen Hs0) Hrun).
  - intros s' Hstep.
    exact (momentum_step _ _ _ _ _ _ _ _ (md_inv_run _ _ _ _ _ _ _ _ Hlen Hrun) Hstep).
Qed.

Lemma C6_momentum_conserved_witness :
  exists s,
    run_md_from [V3 8 0.2 3; V3 0 0 0; V3 1 1 1]
                [V3 1 0 0; V3 0 (-1) 0; V3 0.5 0.5 2] 10 3 2 1 0.01 = Some s /\
    momentum 2 (st_v s) = momentum 2 [V3 1 0 0; V3 0 (-1) 0; V3 0.5 0.5 2].
Proof.
  destruct (run_md_from_runs [V3 8 0.2 3; V3 0 0 0; V3 1 1 1]
              [V3 1 0 0; V3 0 (-1) 0; V3 0.5 0.5 2] 10 3 2 1 0.01)
    as [s Hs]; [lra | lia | lra |].
  exists s. split; [exact Hs|].
  exact (proj1 (C6_momentum_conserved [V3 8 0.2 3; V3 0 0 0; V3 1 1 1]
                  [V3 1 0 0; V3 0 (-1) 0; V3 0.5 0.5 2] 10 3 2 1 0.01 s eq_refl Hs)).
Defined.

(** ** The trajectory frame *)

(** C9.  For two particles at [(1,2,3)] and [(4,5,6)] and step [5],
    [write_trajectory_frame] writes exactly four lines: the count and the
    step right-justified in ten characters, then one line per particle with
    the coordinates in ten characters and five decimals. *)
Theorem C9_trajectory_frame :
  let text :=
    Traj.write_trajectory_frame [V3 1%Q 2%Q 3%Q; V3 4%Q 5%Q 6%Q] "" 5 in
  Traj.lines text =
    [ "         2";
      "         5";
      "C      1.00000    2.00000    3.00000";
      "C      4.00000    5.00000    6.00000" ]%string /\
  text =
    ("         2" ++ Traj.nl ++
     "         5" ++ Traj.nl ++
     "C      1.00000    2.00000    3.00000" ++ Traj.nl ++
     "C      4.00000    5.00000    6.00000" ++ Traj.nl)%string.
Proof. split; vm_compute; reflexivity. Qed.

(** * Further properties of the program *)

(** ** compute_forces *)

(** X1.  With fewer than two particles there is no pair: [compute_forces]
    returns the zero array of the shape of the positions, in any box. *)
Theorem X1_fewer_than_two_particles (x : array) (L : R) :
  (length x <= 1)%nat -> compute_forces x L = Some (zeros (length x)).
Proof.
  intros Hlen. destruct x as [|a [|b x]]; simpl in Hlen; [reflexivity | reflexivity | lia].
Qed.

Lemma X1_fewer_than_two_particles_witness :
  compute_forces [V3 1 2 3] 10 = Some [vzero].
Proof.
  apply (X1_fewer_than_two_particles [V3 1 2 3] 10). simpl. lia.
Defined.

(** X19.  Whenever no pair is at distance zero as [lj_force] itself
    computes it (after its PBC check), [compute_forces] returns a force
    array of the shape of the positions whose rows sum to the zero vector:
    what a pair takes from row [i] it adds to row [j]. *)
Theorem X19_net_force_zero (x : array) (L : R) :
  (forall i j xi xj, (i < j)%nat -> x !! i = Some xi -> x !! j = Some xj ->
     pair_distance L xi xj <> 0) ->
  exists f, compute_forces x L = Some f /\ length f = length x /\ asum f = vzero.
Proof.
  intros Hd. destruct (lj_force_runs x L Hd) as [f Hf].
  exists f. split; [exact Hf|]. exact (lj_force_inv x L f Hf).
Qed.

Lemma X19_net_force_zero_witness :
  exists f, compute_forces [V3 8 0.2 3; V3 0 0 0; V3 1 1 1] 10 = Some f /\
            length f = 3%nat /\ asum f = vzero.
Proof.
  apply (X19_net_force_zero [V3 8 0.2 3; V3 0 0 0; V3 1 1 1] 10).
  intros i j xi xj _ _ _. apply pair_distance_big_box. lra.
Defined.

Lemma for_each_ext {S : Type} (body1 body2 : nat -> S -> option S) (ks : list nat) :
  (forall k s, k ∈ ks -> body1 k s = body2 k s) ->
  forall s, for_each ks body1 s = for_each ks body2 s.
Proof.
  induction ks as [|k ks IH]; intros Hext s; simpl; [reflexivity|].
  rewrite (Hext k s) by left.
  destruct (body2 k s) as [s1|]; simpl; [|reflexivity].
  apply IH. intros k' s' Hin. apply Hext. now right.
Qed.

Lemma separation_translate (L : R) (t a b : vec) :
  LJ.separation L (vadd a t) (vadd b t) = LJ.separation L a b.
Proof.
  unfold LJ.separation. f_equal. vec_ring.
Qed.

(** X2.  The forces depend on the positions through their differences only:
    moving every particle by the same vector [t] leaves [compute_forces]
    as it is. *)
Theorem X2_translation_invariance (x : array) (t : vec) (L : R) :
  compute_forces ((fun a => vadd a t) <$> x) L = compute_forces x L.
Proof.
  unfold compute_forces, LJ.lj_force. rewrite length_fmap.
  apply for_each_ext. intros i s _.
  apply for_each_ext. intros j f _.
  unfold LJ.pair. rewrite !list_lookup_fmap.
  destruct (x !! i) as [xi|]; [|reflexivity].
  destruct (x !! j) as [xj|]; [|reflexivity].
  simpl. now rewrite separation_translate.
Qed.

(** X3.  In a box of edge at least [1] the PBC check leaves no component of
    a separation at zero, so [compute_forces] never divides by zero: it has a
    value for every positions array, two coincident particles included. *)
Theorem X3_big_box_never_fails (x : array) (L : R) :
  1 <= L ->
  exists f, compute_forces x L = Some f /\ length f = length x /\ asum f = vzero.
Proof.
  intros HL. destruct (compute_forces_big_box x L HL) as [f Hf].
  exists f. split; [exact Hf|]. exact (forces_length x f L Hf).
Qed.

Lemma X3_big_box_never_fails_witness :
  exists f, compute_forces [V3 1 1 1; V3 1 1 1; V3 2 0 7] 10 = Some f /\
            length f = 3%nat /\ asum f = vzero.
Proof.
  apply (X3_big_box_never_fails [V3 1 1 1; V3 1 1 1; V3 2 0 7] 10). lra.
Defined.

(** X4.  [compute_forces] has no value exactly when, for some pair [i < j],
    every component of [x[i] - x[j]] has magnitude [L/2] and lies below the
    constant [0.5] of the PBC check. *)
Theorem X4_failure_characterised (x : array) (L : R) :
  compute_forces x L = None <->
  exists i j xi xj,
    (i < j)%nat /\ x !! i = Some xi /\ x !! j = Some xj /\
    forall l, Rabs (coord l xi - coord l xj) < 0.5 /\
              Rabs (coord l xi - coord l xj) = 0.5 * L.
Proof.
  unfold compute_forces. rewrite lj_force_None.
  split; intros (i & j & xi & xj & Hij & Hi & Hj & H);
    exists i, j, xi, xj; (split; [exact Hij|]); (split; [exact Hi|]);
    (split; [exact Hj|]); now apply pair_distance_eq_0.
Qed.

Lemma pbc_magnitude (L d : R) : 2 <= L -> 0.5 <= Rabs (LJ.pbc L d).
Proof.
  intros HL. unfold LJ.pbc, LJ.copysign1.
  destruct (Rlt_dec (Rabs d) 0.5) as [Hn|Hf]; [|lra].
  destruct (Rlt_dec d 0) as [Hd|Hd].
  - rewrite (Rabs_left d Hd) in Hn. rewrite Rabs_right; lra.
  - rewrite (Rabs_right d) in Hn by lra. rewrite Rabs_left; lra.
Qed.

Lemma Rabs_sqr_ge (a c : R) : 0 <= c -> c <= Rabs a -> c * c <= a * a.
Proof.
  intros Hc H. unfold Rabs in H. destruct (Rcase_abs a); nra.
Qed.

(** X5.  In a box of edge at least [2] every corrected component of a
    separation has magnitude at least [0.5], so no pair is ever seen at a
    squared distance below [0.75], wherever the two particles are. *)
Theorem X5_distance_floor (L : R) (xi xj : vec) :
  2 <= L ->
  0.75 <= vdot (LJ.separation L xi xj) (LJ.separation L xi xj) /\
  0.86 < pair_distance L xi xj.
Proof.
  intros HL.
  assert (Hc : forall l, 0.25 <= coord l (LJ.separation L xi xj)
                                 * coord l (LJ.separation L xi xj)).
  { intros l. rewrite separation_coord.
    pose proof (pbc_magnitude L (coord l xi - coord l xj) HL) as H.
    apply (Rabs_sqr_ge _ 0.5) in H; lra. }
  assert (Hd : 0.75 <= vdot (LJ.separation L xi xj) (LJ.separation L xi xj)).
  { pose proof (Hc 0%nat) as H0. pose proof (Hc 1%nat) as H1.
    pose proof (Hc 2%nat) as H2. cbn [coord] in H0, H1, H2. unfold vdot. lra. }
  split; [exact Hd|].
  unfold pair_distance.
  pose proof (vnorm_nonneg (LJ.separation L xi xj)) as Hn.
  pose proof (vnorm_sqr (LJ.separation L xi xj)) as Hs. nra.
Qed.

Lemma X5_distance_floor_witness :
  0.86 < pair_distance 2 (V3 1 1 1) (V3 1 1 1).
Proof.
  apply (X5_distance_floor 2 (V3 1 1 1) (V3 1 1 1)). lra.
Defined.

Lemma lj_magnitude_pos (r : R) : 0 < r -> r ^ 6 < 2 -> 0 < lj_magnitude r.
Proof.
  intros Hr H6. unfold lj_magnitude, LJ.eps, LJ.sigma.
  assert (H6p : 0 < r ^ 6) by (apply pow_lt; exact Hr).
  assert (H7 : 0 < r ^ 7) by (apply pow_lt; exact Hr).
  assert (Hi7 : 0 < / r ^ 7) by (apply Rinv_0_lt_compat; exact H7).
  assert (Hi6 : / 2 < / r ^ 6) by (apply Rinv_lt_contravar; nra).
  replace (24 * 1 * 1 ^ 7 / r ^ 7 * (2 * 1 ^ 6 / r ^ 6 - 1))
    with (24 * / r ^ 7 * (2 * / r ^ 6 - 1)) by (field; lra).
  apply Rmult_lt_0_compat; lra.
Qed.

Lemma vdot_vdiv_self (dx : vec) :
  vnorm dx <> 0 -> vdot (vdiv dx (vnorm dx)) dx = vnorm dx.
Proof.
  intros H0.
  transitivity (vdot dx dx / vnorm dx).
  - unfold vdot, vdiv, vmap. simpl. field. exact H0.
  - rewrite <- vnorm_sqr. field. exact H0.
Qed.

(** X6.  The direction of the force of a pair.  With [dx] the corrected
    separation of [x[0]] from [x[1]] at distance [r > 0], the force that
    [compute_forces] puts on particle [0] is [-lj_magnitude r] along [dx/r]
    and the force on particle [1] is the opposite: below the distance
    [2^(1/6)] particle [0] is driven against [dx], beyond it along [dx]. *)
Theorem X6_pair_force_direction (a b : vec) (L : R) :
  let dx := LJ.separation L a b in
  let r := pair_distance L a b in
  0 < r ->
  exists f0 f1,
    compute_forces [a; b] L = Some [f0; f1] /\
    f1 = vscale (-1) f0 /\
    vdot f0 dx = - lj_magnitude r * r /\
    (r ^ 6 < 2 -> vdot f0 dx < 0) /\
    (2 < r ^ 6 -> 0 < vdot f0 dx).
Proof.
  intros dx r Hr.
  assert (Hr0 : vnorm dx <> 0) by (unfold r, pair_distance in Hr; fold dx in Hr; lra).
  set (g := vscale (lj_magnitude r) (vdiv dx r)).
  assert (Hdot : vdot (vsub vzero g) dx = - lj_magnitude r * r).
  { transitivity (- lj_magnitude r * vdot (vdiv dx (vnorm dx)) dx).
    - unfold g, r, pair_distance. fold dx. vec_unfold. ring.
    - rewrite (vdot_vdiv_self dx Hr0). reflexivity. }
  exists (vsub vzero g), (vadd vzero g). repeat split.
  - unfold compute_forces. rewrite lj_force_two. fold dx.
    rewrite (lj_f_Some dx Hr0). reflexivity.
  - vec_ring.
  - exact Hdot.
  - intros H6. rewrite Hdot. pose proof (lj_magnitude_pos r Hr H6). nra.
  - intros H6. rewrite Hdot. pose proof (lj_magnitude_neg r Hr H6). nra.
Qed.

Lemma X6_pair_force_direction_witness :
  exists f0 f1,
    compute_forces [V3 2 2 1; V3 0 0 0] 10 = Some [f0; f1] /\
    0 < vdot f0 (V3 2 2 1).
Proof.
  destruct C3_example_separation as [Hdx Hr].
  pose proof (X6_pair_force_direction (V3 2 2 1) (V3 0 0 0) 10) as H.
  simpl in H. rewrite Hdx, Hr in H.
  destruct H as (f0 & f1 & Hf & _ & _ & _ & Hfar); [lra|].
  exists f0, f1. split; [exact Hf|]. apply Hfar. lra.
Defined.

(** ** velocity_verlet_update_positions *)

(** X7.  The wrap is applied once, not repeated: a coordinate whose
    unwrapped value is more than one box length outside the box (above [2L]
    or below [-L]) is still outside the box after
    [velocity_verlet_update_positions]. *)
Theorem X7_wrap_applied_once (x v f : array) (m dt L : R) (i l : nat) (u : vec) :
  m <> 0 -> 0 <= L ->
  unwrapped x v f m dt !! i = Some u ->
  coord l u > 2 * L \/ coord l u < - L ->
  exists x' r,
    velocity_verlet_update_positions x v f m dt L = Some x' /\
    x' !! i = Some r /\
    (coord l r > L \/ coord l r < 0) /\
    ~ in_box L x'.
Proof.
  intros Hm HL Hu Hout.
  assert (Hr : (vmap (wrap L) <$> unwrapped x v f m dt) !! i
               = Some (vmap (wrap L) u))
    by (now rewrite list_lookup_fmap, Hu).
  assert (Hc : coord l (vmap (wrap L) u) > L \/ coord l (vmap (wrap L) u) < 0).
  { rewrite coord_vmap. destruct Hout as [Hhi|Hlo].
    - left. rewrite wrap_above by lra. lra.
    - right. rewrite wrap_below by lra. lra. }
  exists (vmap (wrap L) <$> unwrapped x v f m dt), (vmap (wrap L) u).
  split; [now apply update_positions_value|].
  split; [exact Hr|]. split; [exact Hc|].
  intros Hbox.
  pose proof (all_coords_coord _ _ i l _ Hbox Hr) as Hin. simpl in Hin. lra.
Qed.

Lemma X7_wrap_applied_once_witness :
  exists x' r,
    velocity_verlet_update_positions [V3 0.5 0.5 0.5] [V3 3 0 0] [vzero] 1 1 1
      = Some x' /\
    x' !! 0%nat = Some r /\ (c0 r > 1 \/ c0 r < 0).
Proof.
  destruct (X7_wrap_applied_once [V3 0.5 0.5 0.5] [V3 3 0 0] [vzero] 1 1 1
              0 0 (vadd (V3 0.5 0.5 0.5)
                        (vadd (vmap (fun c => c * 1) (V3 3 0 0))
                              (vmap (fun c => 0.5 * 1 * 1 * c / 1) vzero))))
    as (x' & r & Hx' & Hr & Hc & _).
  - lra.
  - lra.
  - reflexivity.
  - left. simpl. lra.
  - exists x', r. repeat split; assumption.
Defined.

(** ** run_md *)

Lemma md_step_frames (m dt L : R) (dump : Z) (k : nat) (s s' : md_state) :
  md_step m dt L dump k s = Some s' ->
  st_frames s' =
    if (Z.of_nat k mod dump =? 0)%Z then st_frames s ++ [(k, st_x s')]
    else st_frames s.
Proof.
  unfold md_step. intros H.
  destruct (velocity_verlet_update_positions _ _ _ m dt L) as [x'|];
    simpl in H; [|discriminate].
  destruct (compute_forces x' L) as [f1|]; simpl in H; [|discriminate].
  destruct (velocity_verlet_update_velocities _ _ f1 m dt) as [v'|];
    simpl in H; [|discriminate].
  destruct (dump =? 0)%Z; [discriminate|].
  injection H as <-. reflexivity.
Qed.

Lemma md_step_None (m dt L : R) (dump : Z) (k : nat) (s : md_state) :
  m = 0 \/ dump = 0%Z -> md_step m dt L dump k s = None.
Proof.
  intros H. destruct (md_step m dt L dump k s) as [s'|] eqn:Hs; [|reflexivity].
  apply md_step_inv in Hs as (Hm & Hdump & _). tauto.
Qed.

(** X8.  A run of at least one step fails when the mass is zero (the
    updates divide by it) or when the write frequency is zero
    ([step % dump] raises). *)
Theorem X8_run_fails (x v : array) (L : R) (n : nat) (m : R) (dump : Z) (dt : R) :
  (0 < n)%nat -> m = 0 \/ dump = 0%Z ->
  run_md_from x v L n m dump dt = None.
Proof.
  intros Hn Hbad.
  destruct n as [|k]; [lia|].
  rewrite run_md_from_S.
  destruct (run_md_from x v L k m dump dt) as [s|]; simpl; [|reflexivity].
  now apply md_step_None.
Qed.

Lemma X8_run_fails_witness :
  run_md_from [V3 1 2 3] [V3 0 0 0] 10 4 1 0 0.01 = None.
Proof.
  apply (X8_run_fails [V3 1 2 3] [V3 0 0 0] 10 4 1 0 0.01); [lia | right; reflexivity].
Defined.

(** X9.  The frames written by a run of [n] steps: their step numbers are,
    in order, the steps below [n] that [dump] divides, and the positions of
    the frame of step [k] are those held after step [k]. *)
Theorem X9_frames_written (x v : array) (L : R) (n : nat) (m : R) (dump : Z)
    (dt : R) (s : md_state) :
  run_md_from x v L n m dump dt = Some s ->
  (st_frames s).*1 = filter (fun k => (Z.of_nat k mod dump = 0)%Z) (range 0 n) /\
  forall k xk, (k, xk) ∈ st_frames s ->
    exists sk, run_md_from x v L (S k) m dump dt = Some sk /\ st_x sk = xk.
Proof.
  revert s. induction n as [|n IH]; intros s Hrun.
  - unfold run_md_from in Hrun.
    destruct (compute_forces x L) as [f0|]; simpl in Hrun; [|discriminate].
    injection Hrun as <-. simpl. split; [reflexivity|].
    intros k xk Hin. inversion Hin.
  - pose proof Hrun as Hrun'. rewrite run_md_from_S in Hrun'.
    destruct (run_md_from x v L n m dump dt) as [s0|] eqn:Hs0; simpl in Hrun';
      [|discriminate].
    destruct (IH s0 eq_refl) as [IH1 IH2].
    pose proof (md_step_frames _ _ _ _ _ _ _ Hrun') as Hfr.
    rewrite range_0_S, filter_app, filter_cons, filter_nil.
    destruct (Z.of_nat n mod dump =? 0)%Z eqn:Hdiv.
    + apply Z.eqb_eq in Hdiv. rewrite decide_True by exact Hdiv.
      rewrite Hfr, fmap_app, IH1. split; [reflexivity|].
      intros k xk Hin. apply elem_of_app in Hin as [Hin|Hin].
      * exact (IH2 k xk Hin).
      * apply list_elem_of_singleton in Hin. injection Hin as -> ->.
        now exists s.
    + apply Z.eqb_neq in Hdiv. rewrite decide_False by exact Hdiv.
      rewrite Hfr, IH1, app_nil_r. split; [reflexivity|]. exact IH2.
Qed.

Lemma X9_frames_written_witness :
  exists s,
    run_md_from [V3 8 0.2 3; V3 0 0 0] [V3 1 0 0; V3 0 (-1) 0] 10 5 2 2 0.01
      = Some s /\
    (st_frames s).*1 = [0; 2; 4]%nat.
Proof.
  destruct (run_md_from_runs [V3 8 0.2 3; V3 0 0 0] [V3 1 0 0; V3 0 (-1) 0]
              10 5 2 2 0.01) as [s Hs]; [lra | lia | lra |].
  exists s. split; [exact Hs|].
  exact (proj1 (X9_frames_written _ _ _ _ _ _ _ s Hs)).
Defined.

(** X10.  With a nonzero mass, a nonzero write frequency and a box of edge
    at least [1], a run of any number of steps from any positions and
    velocities goes through: no step divides by zero. *)
Theorem X10_run_goes_through (x v : array) (L : R) (n : nat) (m : R) (dump : Z)
    (dt : R) :
  m <> 0 -> dump <> 0%Z -> 1 <= L ->
  exists s, run_md_from x v L n m dump dt = Some s.
Proof. apply run_md_from_runs. Qed.

Lemma X10_run_goes_through_witness :
  exists s,
    run_md_from [V3 1 1 1; V3 1 1 1] [V3 0 0 0; V3 0 0 0] 1 100 1 7 0.5 = Some s.
Proof.
  apply (X10_run_goes_through [V3 1 1 1; V3 1 1 1] [V3 0 0 0; V3 0 0 0]
           1 100 1 7 0.5); [lra | lia | lra].
Defined.

(** X11.  What every run keeps: positions, velocities and saved forces have
    the shape they started with, the saved forces are those of the final
    positions, and they sum to the zero vector. *)
Theorem X11_run_invariant (x v : array) (L : R) (n : nat) (m : R) (dump : Z)
    (dt : R) (s : md_state) :
  length v = length x ->
  run_md_from x v L n m dump dt = Some s ->
  length (st_x s) = length x /\
  length (st_v s) = length x /\
  length (st_f0 s) = length x /\
  compute_forces (st_x s) L = Some (st_f0 s) /\
  asum (st_f0 s) = vzero.
Proof.
  intros Hlen Hrun.
  destruct (md_inv_run _ _ _ _ _ _ _ _ Hlen Hrun) as (Hx & Hv & Hf).
  destruct (forces_length _ _ _ Hf) as [Hlf Hsum].
  repeat split; try assumption. congruence.
Qed.

Lemma X11_run_invariant_witness :
  exists s,
    run_md_from [V3 8 0.2 3; V3 0 0 0] [V3 1 0 0; V3 0 (-1) 0] 10 5 2 2 0.01
      = Some s /\
    length (st_x s) = 2%nat /\ asum (st_f0 s) = vzero.
Proof.
  destruct (run_md_from_runs [V3 8 0.2 3; V3 0 0 0] [V3 1 0 0; V3 0 (-1) 0]
              10 5 2 2 0.01) as [s Hs]; [lra | lia | lra |].
  destruct (X11_run_invariant [V3 8 0.2 3; V3 0 0 0] [V3 1 0 0; V3 0 (-1) 0]
              10 5 2 2 0.01 s eq_refl Hs) as (Hx & _ & _ & _ & Hsum).
  exists s. repeat split; assumption.
Defined.

(** A step has a value as soon as the forces of the new positions have one. *)
Lemma md_step_runs_if (m dt L : R) (dump : Z) (k : nat) (s : md_state) (f1 : array) :
  m <> 0 -> dump <> 0%Z ->
  compute_forces (vmap (wrap L) <$> unwrapped (st_x s) (st_v s) (st_f0 s) m dt) L
    = Some f1 ->
  exists s', md_step m dt L dump k s = Some s'.
Proof.
  intros Hm Hdump Hf1. unfold md_step.
  rewrite (update_positions_value _ _ _ _ _ _ Hm). simpl. rewrite Hf1. simpl.
  rewrite (update_velocities_value _ _ _ _ _ Hm). simpl.
  apply Z.eqb_neq in Hdump. rewrite Hdump. eauto.
Qed.

Lemma vmap_wrap_inside (L : R) (a : vec) :
  0 <= c0 a <= L -> 0 <= c1 a <= L -> 0 <= c2 a <= L -> vmap (wrap L) a = a.
Proof.
  intros H0 H1 H2. apply vec_eq; simpl; now apply wrap_inside.
Qed.

(** X12.  A single particle feels no force: in a run of any length, in any
    box, it keeps its velocity, and if that velocity is zero and it starts in
    the box it stays where it is. *)
Theorem X12_single_particle (a w : vec) (L : R) (n : nat) (m : R) (dump : Z)
    (dt : R) :
  m <> 0 -> dump <> 0%Z ->
  exists s,
    run_md_from [a] [w] L n m dump dt = Some s /\
    st_v s = [w] /\
    st_f0 s = [vzero] /\
    (w = vzero -> in_box L [a] -> st_x s = [a]).
Proof.
  intros Hm Hdump.
  assert (H : exists s p,
             run_md_from [a] [w] L n m dump dt = Some s /\
             st_x s = [p] /\ st_v s = [w] /\ st_f0 s = [vzero] /\
             (w = vzero -> in_box L [a] -> p = a)).
  { induction n as [|n (s & p & Hs & Hx & Hv & Hf & Hp)].
    - exists (MdState [a] [w] [vzero] []), a. repeat split; reflexivity.
    - destruct (md_step_runs_if m dt L dump n s [vzero] Hm Hdump) as [s' Hs'].
      { rewrite Hx, Hv, Hf. reflexivity. }
      pose proof Hs' as Hinv.
      apply md_step_inv in Hinv as (_ & _ & f1 & Hx' & Hf1 & Hf0' & Hv').
      rewrite Hx, Hv, Hf in Hx'. rewrite Hv, Hf in Hv'.
      assert (Hf1' : f1 = [vzero]).
      { rewrite Hx' in Hf1. simpl in Hf1. unfold compute_forces in Hf1.
        cbv [LJ.lj_force length Nat.sub range seq for_each zeros replicate] in Hf1.
        congruence. }
      exists s'. eexists. split; [rewrite run_md_from_S, Hs; exact Hs'|].
      split; [exact Hx'|]. split.
      { rewrite Hv', Hf1'. simpl. f_equal. vec_ring. }
      split; [congruence|].
      intros Hw Hbox. rewrite (Hp Hw Hbox), Hw.
      unfold in_box, all_coords in Hbox. apply Forall_cons in Hbox as [(H0 & H1 & H2) _].
      replace (vadd a (vadd (vmap (fun c => c * dt) vzero)
                            (vmap (fun c => 0.5 * dt * dt * c / m) vzero)))
        with a by (apply vec_eq; simpl; unfold Rdiv; ring).
      now apply vmap_wrap_inside. }
  destruct H as (s & p & Hs & Hx & Hv & Hf & Hp).
  exists s. repeat split; try assumption.
  intros Hw Hbox. rewrite Hx. f_equal. now apply Hp.
Qed.

Lemma X12_single_particle_witness :
  exists s,
    run_md_from [V3 1 2 3] [vzero] 0.5 9 2 3 0.01 = Some s /\
    st_v s = [vzero] /\ st_f0 s = [vzero].
Proof.
  destruct (X12_single_particle (V3 1 2 3) vzero 0.5 9 2 3 0.01)
    as (s & Hs & Hv & Hf & _); [lra | lia |].
  exists s. repeat split; assumption.
Defined.

(** ** The initial conditions *)

(** X13.  For a draw of numbers in [[0, 1)] and a positive box length,
    [initialize_positions] puts every coordinate of every particle in the
    half-open box [[0, L)], one row per row of the draw. *)
Theorem X13_initial_positions_in_box (u : array) (L : R) :
  0 < L ->
  all_coords (fun c => 0 <= c < 1) u ->
  length (initialize_positions u L) = length u /\
  in_half_open_box L (initialize_positions u L).
Proof.
  intros HL Hu. unfold initialize_positions. split; [apply length_fmap|].
  unfold in_half_open_box, all_coords in *. rewrite Forall_fmap.
  eapply Forall_impl; [exact Hu|].
  intros r (H0 & H1 & H2). simpl. repeat split; nra.
Qed.

Lemma X13_initial_positions_in_box_witness :
  in_half_open_box 10 (initialize_positions [V3 0 0.5 0.99; V3 0.25 0.75 0.1] 10).
Proof.
  apply (X13_initial_positions_in_box [V3 0 0.5 0.99; V3 0.25 0.75 0.1] 10).
  - lra.
  - repeat constructor; simpl; lra.
Defined.

Lemma momentum_zeros (m : R) (n : nat) : momentum m (zeros n) = vzero.
Proof.
  unfold momentum. rewrite asum_ascale, asum_zeros. apply vscale_zero.
Qed.

Lemma momentum_run (x v : array) (L : R) (n : nat) (m : R) (dump : Z) (dt : R)
    (s : md_state) :
  length v = length x ->
  run_md_from x v L n m dump dt = Some s ->
  momentum m (st_v s) = momentum m v.
Proof.
  intros Hlen. revert s. induction n as [|n IH]; intros s Hrun.
  - unfold run_md_from in Hrun.
    destruct (compute_forces x L) as [f0|]; simpl in Hrun; [|discriminate].
    now injection Hrun as <-.
  - rewrite run_md_from_S in Hrun.
    destruct (run_md_from x v L n m dump dt) as [s0|] eqn:Hs0; simpl in Hrun;
      [|discriminate].
    rewrite <- (IH s0 eq_refl).
    exact (momentum_step _ _ _ _ _ _ _ _ (md_inv_run _ _ _ _ _ _ _ _ Hlen Hs0) Hrun).
Qed.

Lemma initialize_velocities_cold (g : array) (m : R) :
  m <> 0 -> initialize_velocities g m 0 = Some (zeros (length g)).
Proof.
  intros Hm. unfold initialize_velocities.
  destruct (Req_dec_T m 0) as [|_]; [contradiction|].
  replace (0 / m) with 0 by (unfold Rdiv; ring).
  destruct (Rlt_dec 0 0) as [H|_]; [lra|].
  rewrite sqrt_0. f_equal.
  induction g as [|r g IH]; [reflexivity|].
  csimpl. unfold zeros in *. simpl. rewrite IH. f_equal.
  apply vec_eq; simpl; ring.
Qed.

(** X14.  A start at temperature zero is a start at rest:
    [initialize_velocities] returns zero velocities, and along the whole of
    [run_md] the total momentum is the zero vector. *)
Theorem X14_cold_start (u g : array) (L : R) (n : nat) (m : R) (dump : Z) (dt : R)
    (s : md_state) :
  m <> 0 -> length g = length u ->
  run_md u g L n m 0 dump dt = Some s ->
  initialize_velocities g m 0 = Some (zeros (length g)) /\
  momentum m (st_v s) = vzero.
Proof.
  intros Hm Hlen Hrun.
  pose proof (initialize_velocities_cold g m Hm) as Hv.
  split; [exact Hv|].
  unfold run_md in Hrun. rewrite Hv in Hrun. simpl in Hrun.
  rewrite (momentum_run _ _ _ _ _ _ _ s) with (2 := Hrun).
  - apply momentum_zeros.
  - unfold zeros, initialize_positions. rewrite length_replicate, length_fmap.
    exact Hlen.
Qed.

Lemma X14_cold_start_witness :
  exists s,
    run_md [V3 0.1 0.2 0.3; V3 0.7 0.8 0.9] [V3 1 (-1) 0.5; V3 0.3 0 2]
           10 4 2 0 1 0.01 = Some s /\
    momentum 2 (st_v s) = vzero.
Proof.
  assert (Hm : (2 : R) <> 0) by lra.
  destruct (run_md_from_runs
              (initialize_positions [V3 0.1 0.2 0.3; V3 0.7 0.8 0.9] 10)
              (zeros 2) 10 4 2 1 0.01) as [s Hs]; [lra | lia | lra |].
  assert (Hrun : run_md [V3 0.1 0.2 0.3; V3 0.7 0.8 0.9] [V3 1 (-1) 0.5; V3 0.3 0 2]
                   10 4 2 0 1 0.01 = Some s).
  { unfold run_md.
    rewrite (initialize_velocities_cold [V3 1 (-1) 0.5; V3 0.3 0 2] 2 Hm).
    exact Hs. }
  exists s. split; [exact Hrun|].
  exact (proj2 (X14_cold_start [V3 0.1 0.2 0.3; V3 0.7 0.8 0.9]
                  [V3 1 (-1) 0.5; V3 0.3 0 2] 10 4 2 1 0.01 s Hm eq_refl Hrun)).
Defined.

(** ** write_trajectory_frame *)

Lemma str_app_assoc (a b c : string) : ((a ++ b) ++ c = a ++ (b ++ c))%string.
Proof. induction a as [|ch a IH]; simpl; [reflexivity | now rewrite IH]. Qed.

Lemma count_nl_app (a b : string) :
  count_nl (a ++ b) = (count_nl a + count_nl b)%nat.
Proof. induction a as [|ch a IH]; simpl; [reflexivity | rewrite IH; lia]. Qed.

Lemma count_nl_fill (n : nat) (c : ascii) :
  Ascii.eqb c (ascii_of_nat 10) = false -> count_nl (Traj.fill n c) = 0%nat.
Proof.
  intros Hc. induction n as [|n IH]; simpl; [reflexivity|]. now rewrite Hc, IH.
Qed.

Lemma count_nl_rjust (w : nat) (c : ascii) (s : string) :
  Ascii.eqb c (ascii_of_nat 10) = false ->
  count_nl (Traj.rjust w c s) = count_nl s.
Proof.
  intros Hc. unfold Traj.rjust. now rewrite count_nl_app, count_nl_fill.
Qed.

Lemma count_nl_uint (d : Decimal.uint) :
  count_nl (NilEmpty.string_of_uint d) = 0%nat.
Proof. induction d; simpl; assumption || reflexivity. Qed.

Lemma count_nl_uint0 (d : Decimal.uint) :
  count_nl (NilZero.string_of_uint d) = 0%nat.
Proof.
  destruct d; first [reflexivity | apply (count_nl_uint (Decimal.D0 d))
    | apply (count_nl_uint (Decimal.D1 d)) | apply (count_nl_uint (Decimal.D2 d))
    | apply (count_nl_uint (Decimal.D3 d)) | apply (count_nl_uint (Decimal.D4 d))
    | apply (count_nl_uint (Decimal.D5 d)) | apply (count_nl_uint (Decimal.D6 d))
    | apply (count_nl_uint (Decimal.D7 d)) | apply (count_nl_uint (Decimal.D8 d))
    | apply (count_nl_uint (Decimal.D9 d))].
Qed.

Lemma count_nl_digits (n : Z) : count_nl (Traj.digits n) = 0%nat.
Proof.
  unfold Traj.digits, NilZero.string_of_int.
  destruct (Z.to_int n) as [d|d].
  - apply count_nl_uint0.
  - change (count_nl (String "-" (NilZero.string_of_uint d)))
      with (0 + count_nl (NilZero.string_of_uint d))%nat.
    now rewrite count_nl_uint0.
Qed.

Lemma count_nl_fmt_d (w : nat) (n : Z) : count_nl (Traj.fmt_d w n) = 0%nat.
Proof.
  unfold Traj.fmt_d. rewrite count_nl_rjust by reflexivity. apply count_nl_digits.
Qed.

Lemma count_nl_fmt_f (w p : nat) (q : Q) : count_nl (Traj.fmt_f w p q) = 0%nat.
Proof.
  unfold Traj.fmt_f. cbv zeta. rewrite count_nl_rjust by reflexivity.
  destruct (Qnum q <? 0)%Z;
    rewrite !count_nl_app, !count_nl_digits, count_nl_rjust, count_nl_digits
      by reflexivity; reflexivity.
Qed.

(** The line that [write_trajectory_frame] writes for one particle. *)
Lemma particle_line_one_nl (xi : vec3 Q) :
  count_nl ("C   " ++ Traj.fmt_f 10 5 (c0 xi) ++ " " ++ Traj.fmt_f 10 5 (c1 xi)
                   ++ " " ++ Traj.fmt_f 10 5 (c2 xi) ++ Traj.nl) = 1%nat.
Proof.
  rewrite !count_nl_app, !count_nl_fmt_f. reflexivity.
Qed.

(** X15.  [write_trajectory_frame] only appends: what the file held stays
    in front, unchanged; and a frame of [N] particles is exactly [N + 2]
    lines, whatever the coordinates and the step. *)
Theorem X15_frame_appended (x : list (vec3 Q)) (file : string) (step : Z) :
  Traj.write_trajectory_frame x file step
    = (file ++ Traj.write_trajectory_frame x "" step)%string /\
  count_nl (Traj.write_trajectory_frame x "" step) = (length x + 2)%nat.
Proof.
  unfold Traj.write_trajectory_frame.
  set (line := fun xi : vec3 Q =>
                 ("C   " ++ Traj.fmt_f 10 5 (c0 xi) ++ " " ++ Traj.fmt_f 10 5 (c1 xi)
                    ++ " " ++ Traj.fmt_f 10 5 (c2 xi) ++ Traj.nl)%string).
  assert (Hfold : forall (l : list (vec3 Q)) (a b : string),
             foldl (fun f xi => (f ++ line xi)%string) (a ++ b)%string l
             = (a ++ foldl (fun f xi => (f ++ line xi)%string) b l)%string).
  { induction l as [|xi l IH]; intros a b; simpl; [reflexivity|].
    rewrite str_app_assoc. apply IH. }
  assert (Hcount : forall (l : list (vec3 Q)) (b : string),
             count_nl (foldl (fun f xi => (f ++ line xi)%string) b l)
             = (count_nl b + length l)%nat).
  { induction l as [|xi l IH]; intros b; simpl; [lia|].
    rewrite IH, count_nl_app. unfold line at 1.
    rewrite particle_line_one_nl. lia. }
  fold line. split.
  - rewrite !str_app_assoc. rewrite Hfold. reflexivity.
  - rewrite Hcount. simpl. rewrite !count_nl_app, !count_nl_fmt_d. simpl. lia.
Qed.

(** X16.  The rounding behind [%10.5f]: the integer whose digits are
    printed is within one half of the scaled value, and at a tie (the scaled
    value exactly half way between two integers) it is the even one. *)
Theorem X16_round_half_even (q : Q) :
  (Qabs (inject_Z (Traj.round_half_even q) - q) <= 1 # 2)%Q /\
  ((2 * (Qnum q mod Zpos (Qden q)) = Zpos (Qden q))%Z ->
   Z.even (Traj.round_half_even q) = true).
Proof.
  destruct q as [n d]. unfold Traj.round_half_even. cbn [Qnum Qden].
  pose proof (Z.div_mod n (Zpos d) ltac:(lia)) as Hdm.
  pose proof (Z.mod_pos_bound n (Zpos d) ltac:(lia)) as Hb.
  set (fl := (n / Zpos d)%Z) in *. set (r := (n mod Zpos d)%Z) in *.
  split.
  - apply Qabs_Qle_condition.
    destruct (Z.compare_spec (2 * r) (Zpos d)) as [Hc|Hc|Hc];
      [destruct (Z.even fl) | | ];
      (split; unfold Qle, Qminus, Qplus, Qopp, inject_Z; cbn [Qnum Qden];
       rewrite ?Pos2Z.inj_mul; nia).
  - intros Hhalf. rewrite Hhalf, Z.compare_refl.
    destruct (Z.even fl) eqn:He; [exact He|].
    rewrite Z.even_add, He. reflexivity.
Qed.

Lemma X16_round_half_even_witness :
  Z.even (Traj.round_half_even (5 # 2)) = true.
Proof.
  apply (X16_round_half_even (5 # 2)). reflexivity.
Defined.

(** ** Time reversal *)

Lemma wrap_identity_on_box (L : R) (u : array) :
  in_box L u -> vmap (wrap L) <$> u = u.
Proof.
  unfold in_box, all_coords. induction 1 as [|r u (H0 & H1 & H2) _ IH]; csimpl;
    [reflexivity|].
  rewrite IH. f_equal. now apply vmap_wrap_inside.
Qed.

(** A step forward and a step with the opposite time step, both without
    wrap, bring the positions back. *)
Lemma unwrapped_back (x v f0 f1 : array) (m dt : R) :
  m <> 0 ->
  length v = length x -> length f0 = length x -> length f1 = length x ->
  unwrapped (unwrapped x v f0 m dt)
            (azip vadd v (ascale (0.5 * dt / m) (azip vadd f0 f1))) f1 m (- dt)
  = x.
Proof.
  intros Hm. revert v f0 f1.
  induction x as [|a x IH]; intros [|b v] [|c f0] [|d f1] Hv Hf0 Hf1;
    simpl in Hv, Hf0, Hf1; try discriminate; [reflexivity|].
  unfold unwrapped, displacement, azip, ascale in *. csimpl. f_equal.
  - apply vec_eq; simpl; field; exact Hm.
  - apply IH; congruence.
Qed.

Lemma velocities_back (v f0 f1 : array) (m dt : R) :
  m <> 0 ->
  length f0 = length v -> length f1 = length v ->
  azip vadd (azip vadd v (ascale (0.5 * dt / m) (azip vadd f0 f1)))
            (ascale (0.5 * - dt / m) (azip vadd f1 f0))
  = v.
Proof.
  intros Hm. revert f0 f1.
  induction v as [|b v IH]; intros [|c f0] [|d f1] Hf0 Hf1;
    simpl in Hf0, Hf1; try discriminate; [reflexivity|].
  unfold azip, ascale in *. csimpl. f_equal.
  - apply vec_eq; simpl; field; exact Hm.
  - apply IH; congruence.
Qed.

(** X17.  In exact real arithmetic the integrator is time-reversible as
    long as nothing is wrapped: after a step with time step [dt] whose
    unwrapped positions stay in the box, a step with time step [-dt] has a
    value and restores the positions, the velocities and the saved forces. *)
Theorem X17_time_reversible (m dt L : R) (dump : Z) (k k' : nat)
    (s s' : md_state) :
  length (st_v s) = length (st_x s) ->
  forces_current L s ->
  in_box L (st_x s) ->
  in_box L (unwrapped (st_x s) (st_v s) (st_f0 s) m dt) ->
  md_step m dt L dump k s = Some s' ->
  exists s'',
    md_step m (- dt) L dump k' s' = Some s'' /\
    st_x s'' = st_x s /\ st_v s'' = st_v s /\ st_f0 s'' = st_f0 s.
Proof.
  intros Hlen Hf0 Hbox Hbox' Hstep.
  destruct (forces_length _ _ _ Hf0) as [Hl0 _].
  pose proof (md_inv_step (length (st_x s)) _ _ _ _ _ _ _
                (conj eq_refl (conj Hlen Hf0)) Hstep) as (Hlx' & _ & _).
  apply md_step_inv in Hstep as (Hm & Hdump & f1 & Hx' & Hf1 & Hf0' & Hv').
  destruct (forces_length _ _ _ Hf1) as [Hl1 _].
  rewrite (wrap_identity_on_box _ _ Hbox') in Hx'.
  assert (Hback : unwrapped (st_x s') (st_v s') (st_f0 s') m (- dt) = st_x s).
  { rewrite Hx', Hv', Hf0'. apply unwrapped_back; [exact Hm | | | ]; congruence. }
  assert (Hwrapped : vmap (wrap L) <$> unwrapped (st_x s') (st_v s') (st_f0 s') m (- dt)
                     = st_x s)
    by (rewrite Hback; now apply wrap_identity_on_box).
  destruct (md_step_runs_if m (- dt) L dump k' s' (st_f0 s) Hm Hdump) as [s'' Hs''].
  { rewrite Hwrapped. exact Hf0. }
  exists s''. split; [exact Hs''|].
  apply md_step_inv in Hs'' as (_ & _ & f2 & Hx'' & Hf2 & Hf0'' & Hv'').
  rewrite Hwrapped in Hx''. rewrite Hx'' in Hf2.
  assert (Hf2' : f2 = st_f0 s) by (unfold forces_current in Hf0; congruence).
  split; [exact Hx''|]. split; [|congruence].
  rewrite Hv'', Hv', Hf0', Hf2'. apply velocities_back; [exact Hm | | ]; congruence.
Qed.

(** Two particles one unit apart, in a box of edge [10]: the separation
    [(6/11, 6/11, 7/11)] is left alone by the PBC check and the magnitude of
    the force is [24]. *)
Lemma two_particle_forces :
  compute_forces [V3 (61 / 11) (61 / 11) (62 / 11); V3 5 5 5] 10 =
  Some [V3 (- (144 / 11)) (- (144 / 11)) (- (168 / 11));
        V3 (144 / 11) (144 / 11) (168 / 11)].
Proof.
  set (a := V3 (61 / 11) (61 / 11) (62 / 11)). set (b := V3 5 5 5).
  assert (Hsep : LJ.separation 10 a b = vsub a b).
  { apply separation_far; unfold a, b; simpl; rewrite Rabs_right; lra. }
  assert (Hn : vnorm (vsub a b) = 1).
  { apply vnorm_of_sqr; [lra|]. unfold vdot, a, b. simpl. field. }
  assert (Hmag : lj_magnitude 1 = 24)
    by (unfold lj_magnitude, LJ.eps, LJ.sigma; field).
  unfold compute_forces. rewrite lj_force_two, Hsep.
  rewrite lj_f_Some by (rewrite Hn; lra). rewrite Hn, Hmag. simpl.
  f_equal. f_equal; [|f_equal]; apply vec_eq; unfold a, b; simpl; field.
Qed.

Lemma X17_time_reversible_witness :
  exists s' s'',
    md_step 1 0.01 10 1 0
      (MdState [V3 (61 / 11) (61 / 11) (62 / 11); V3 5 5 5]
               [V3 1 0 (-1); V3 0 2 0]
               [V3 (- (144 / 11)) (- (144 / 11)) (- (168 / 11));
                V3 (144 / 11) (144 / 11) (168 / 11)] []) = Some s' /\
    md_step 1 (- (0.01)) 10 1 1 s' = Some s'' /\
    st_x s'' = [V3 (61 / 11) (61 / 11) (62 / 11); V3 5 5 5] /\
    st_v s'' = [V3 1 0 (-1); V3 0 2 0].
Proof.
  set (s := MdState [V3 (61 / 11) (61 / 11) (62 / 11); V3 5 5 5]
                    [V3 1 0 (-1); V3 0 2 0]
                    [V3 (- (144 / 11)) (- (144 / 11)) (- (168 / 11));
                     V3 (144 / 11) (144 / 11) (168 / 11)] []).
  destruct (md_step_runs 1 0.01 10 1 0 s) as [s' Hs']; [lra | lia | lra |].
  destruct (X17_time_reversible 1 0.01 10 1 0 1 s s')
    as (s'' & Hs'' & Hx & Hv & _).
  - reflexivity.
  - exact two_particle_forces.
  - repeat constructor; simpl; lra.
  - repeat constructor; simpl; lra.
  - exact Hs'.
  - exists s', s''. split; [exact Hs'|]. split; [exact Hs''|].
    split; [exact Hx | exact Hv].
Defined.

(** ** velocity_verlet_update_velocities *)

(** X18.  The velocity update on its own, for any two force arrays of the
    shape of the velocities: the shape is kept and the total momentum grows
    by [0.5*dt] times the sum of all the forces of both arrays. *)
Theorem X18_impulse (v f0 f1 v' : array) (m dt : R) :
  length f0 = length v -> length f1 = length v ->
  velocity_verlet_update_velocities v f0 f1 m dt = Some v' ->
  length v' = length v /\
  momentum m v' =
    vadd (momentum m v) (vscale (0.5 * dt) (vadd (asum f0) (asum f1))).
Proof.
  intros Hl0 Hl1 Hupd. unfold velocity_verlet_update_velocities in Hupd.
  destruct (Req_dec_T m 0) as [|Hm]; [discriminate|]. injection Hupd as <-.
  assert (Hlen : length (ascale (0.5 * dt / m) (azip vadd f0 f1)) = length v)
    by (unfold ascale, azip; rewrite length_fmap, length_zip_with; lia).
  split.
  - unfold azip. rewrite length_zip_with. unfold azip in Hlen. lia.
  - unfold momentum. rewrite asum_ascale, asum_azip_vadd by congruence.
    rewrite !asum_ascale, asum_azip_vadd by congruence.
    apply vec_eq; vec_unfold; field; exact Hm.
Qed.

Lemma X18_impulse_witness :
  momentum 2 [V3 1 0.5 0; V3 0 0 (-1)] =
    vadd (momentum 2 [V3 1 0 0; V3 0 0 0])
         (vscale (0.5 * 1)
            (vadd (asum [V3 0 1 0; V3 0 0 (-2)]) (asum [V3 0 1 0; V3 0 0 (-2)]))).
Proof.
  refine (proj2 (X18_impulse [V3 1 0 0; V3 0 0 0] [V3 0 1 0; V3 0 0 (-2)]
                   [V3 0 1 0; V3 0 0 (-2)] [V3 1 0.5 0; V3 0 0 (-1)] 2 1
                   eq_refl eq_refl _)).
  rewrite update_velocities_value by lra.
  f_equal. unfold azip, ascale. simpl.
  f_equal; [|f_equal]; apply vec_eq; simpl; lra.
Defined.
